(** * Connection resolution in OpenMDAO's [Problem.setup]

    A shallow embedding of [openmdao/core/problem.py]: the reconciliation of
    explicit and implicit connections, the type and shape checks of
    [check_connections], the search for hanging parameters and
    [assign_parameters].

    Conventions of the embedding.
    - A Python dict is an association list in iteration order (insertion
      order, as in Python 3.7 and later); its keys are pairwise distinct.
      The order is kept because the code depends on it: it decides which
      conflict is reported and in which order an owner lists its targets.
    - A raised exception is a value of [exn]; a function that may raise
      returns a [result].  Messages are the strings Python builds.
    - Strings are sequences of characters with codes below 256. *)

From Stdlib Require Import String Ascii List ZArith Bool Lia Permutation.
From Stdlib Require Import DecimalString.
Import ListNotations.

Local Open Scope string_scope.

(** ** Exceptions and results *)

Inductive exn : Type :=
| ConnectError (msg : string)
| RuntimeError (msg : string)
| TypeError (msg : string)
| KeyError (msg : string)
| AttributeError (msg : string).

Inductive result (A : Type) : Type :=
| Ok (a : A)
| Raise (e : exn).

Arguments Ok {A} a.
Arguments Raise {A} e.

Definition bind {A B : Type} (r : result A) (k : A -> result B) : result B :=
  match r with
  | Ok a => k a
  | Raise e => Raise e
  end.

Notation "x <- r ;; k" := (bind r (fun x => k))
  (at level 61, r at next level, right associativity).
Notation "r ;;; k" := (bind r (fun _ => k))
  (at level 61, right associativity).

Definition raises_ConnectError {A : Type} (r : result A) : Prop :=
  exists msg, r = Raise (ConnectError msg).

Definition raises_RuntimeError {A : Type} (r : result A) : Prop :=
  exists msg, r = Raise (RuntimeError msg).

Definition raises_TypeError {A : Type} (r : result A) : Prop :=
  exists msg, r = Raise (TypeError msg).

(** ** Strings *)

(** [s.split(sep)] for a one-character separator: never the empty list. *)
Fixpoint split (sep : ascii) (s : string) : list string :=
  match s with
  | EmptyString => [EmptyString]
  | String c s' =>
      if Ascii.eqb c sep then EmptyString :: split sep s'
      else match split sep s' with
           | [] => [String c EmptyString]
           | part :: parts => String c part :: parts
           end
  end.

(** [sep.join(parts)] *)
Definition join (sep : string) (parts : list string) : string :=
  String.concat sep parts.

(** [needle in s] on strings: some suffix of [s] starts with [needle]. *)
Fixpoint contains_str (needle s : string) : bool :=
  String.prefix needle s ||
  match s with
  | EmptyString => false
  | String _ s' => contains_str needle s'
  end.

(** The message names [x]: [x] occurs in it. *)
Definition names (msg x : string) : Prop :=
  exists before after, msg = before ++ x ++ after.

Definition backslash : ascii := ascii_of_nat 92.
Definition dquote : ascii := ascii_of_nat 34.
Definition squote : ascii := ascii_of_nat 39.

Fixpoint mem_char (c : ascii) (s : string) : bool :=
  match s with
  | EmptyString => false
  | String c' s' => Ascii.eqb c' c || mem_char c s'
  end.

Definition hex_digit (n : nat) : ascii :=
  if Nat.ltb n 10 then ascii_of_nat (48 + n) else ascii_of_nat (87 + n).

(** Characters that [repr] writes as they are: Python's [str.isprintable]
    on the code points below 256. *)
Definition printable (c : ascii) : bool :=
  let n := nat_of_ascii c in
  (Nat.leb 32 n && Nat.ltb n 127) ||
  (Nat.ltb 160 n && negb (Nat.eqb n 173)).

Definition repr_char (quote c : ascii) : string :=
  if Ascii.eqb c quote || Ascii.eqb c backslash then String backslash (String c EmptyString)
  else if Ascii.eqb c (ascii_of_nat 9) then String backslash "t"
  else if Ascii.eqb c (ascii_of_nat 10) then String backslash "n"
  else if Ascii.eqb c (ascii_of_nat 13) then String backslash "r"
  else if printable c then String c EmptyString
  else let n := nat_of_ascii c in
       String backslash (String "x" (String (hex_digit (n / 16))
                                       (String (hex_digit (n mod 16)) EmptyString))).

Fixpoint repr_body (quote : ascii) (s : string) : string :=
  match s with
  | EmptyString => EmptyString
  | String c s' => repr_char quote c ++ repr_body quote s'
  end.

(** [repr(s)] of a [str]: double quotes only when [s] holds a single quote
    and no double quote. *)
Definition repr_str (s : string) : string :=
  let quote := if mem_char squote s && negb (mem_char dquote s) then dquote else squote in
  String quote (repr_body quote s ++ String quote EmptyString).

(** [str(n)] of an [int]. *)
Definition str_int (n : Z) : string := NilZero.string_of_int (Z.to_int n).

(** ** Dictionaries *)

(** Keys are compared with [==]; the embedding needs it as a boolean that
    decides equality. *)
Class Key (K : Type) : Type := {
  key_eqb : K -> K -> bool;
  key_eqb_spec : forall a b : K, reflect (a = b) (key_eqb a b)
}.

#[export] Instance Key_string : Key string :=
  {| key_eqb := String.eqb; key_eqb_spec := String.eqb_spec |}.

Section Dict.
Context {K V : Type} `{Key K}.

Definition dict : Type := list (K * V).

(** [d.get(k)] *)
Fixpoint get (d : dict) (k : K) : option V :=
  match d with
  | [] => None
  | (k', v) :: d' => if key_eqb k' k then Some v else get d' k
  end.

(** [k in d] *)
Definition contains (d : dict) (k : K) : bool :=
  match get d k with Some _ => true | None => false end.

Definition keys (d : dict) : list K := map fst d.
Definition values (d : dict) : list V := map snd d.
Definition items (d : dict) : list (K * V) := d.

(** [d[k] = v]: in place when [k] is a key, at the end otherwise. *)
Fixpoint setitem (d : dict) (k : K) (v : V) : dict :=
  match d with
  | [] => [(k, v)]
  | (k', v') :: d' =>
      if key_eqb k' k then (k', v) :: d' else (k', v') :: setitem d' k v
  end.

(** [d.update(other)] *)
Definition update (d other : dict) : dict :=
  fold_left (fun acc kv => setitem acc (fst kv) (snd kv)) (items other) d.

(** The invariant of a dict: no key twice. *)
Definition well_formed (d : dict) : Prop := NoDup (keys d).
End Dict.

Arguments dict K V : clear implicits.

(** [d[k]] on a dict keyed by strings *)
Definition getitem {V : Type} (d : dict string V) (k : string) : result V :=
  match get d k with
  | Some v => Ok v
  | None => Raise (KeyError (repr_str k))
  end.

(** ** Python values *)

(** The classes [type(x)] can return here. *)
Inductive pytype : Type :=
| ty_NoneType
| ty_int
| ty_str
| ty_tuple
| ty_list
| ty_float
| ty_ndarray.

Definition pytype_eqb (a b : pytype) : bool :=
  match a, b with
  | ty_NoneType, ty_NoneType | ty_int, ty_int | ty_str, ty_str
  | ty_tuple, ty_tuple | ty_list, ty_list | ty_float, ty_float
  | ty_ndarray, ty_ndarray => true
  | _, _ => false
  end.

(** [cls.__name__] *)
Definition type_name (t : pytype) : string :=
  match t with
  | ty_NoneType => "NoneType"
  | ty_int => "int"
  | ty_str => "str"
  | ty_tuple => "tuple"
  | ty_list => "list"
  | ty_float => "float"
  | ty_ndarray => "ndarray"
  end.

(** The name [str(cls)] shows: the module comes first for a class that is
    not a builtin. *)
Definition type_qualname (t : pytype) : string :=
  match t with
  | ty_ndarray => "numpy.ndarray"
  | _ => type_name t
  end.

(** [str(cls)] *)
Definition str_type (t : pytype) : string :=
  "<class '" ++ type_qualname t ++ "'>".

(** What a [shape] entry of a variable's metadata can hold: [None], an
    integer, a string, or a tuple or list of integers.  On these [==] is
    structural equality and [str] is written out below. *)
Inductive pyobj : Type :=
| PyNone
| PyInt (n : Z)
| PyStr (s : string)
| PyTuple (items : list Z)
| PyList (items : list Z).

(** The value of a variable: one of the objects above, a [float], or a
    numpy array.  The code looks at a value's class and at its [shape]
    attribute only, so a float is kept as an uninterpreted payload and an
    array as its dimensions. *)
Inductive pyval : Type :=
| Plain (o : pyobj)
| PyFloat (payload : Z)
| Ndarray (dims : list Z).

(** [type(o)] *)
Definition type_of (o : pyobj) : pytype :=
  match o with
  | PyNone => ty_NoneType
  | PyInt _ => ty_int
  | PyStr _ => ty_str
  | PyTuple _ => ty_tuple
  | PyList _ => ty_list
  end.

Definition type_of_val (v : pyval) : pytype :=
  match v with
  | Plain o => type_of o
  | PyFloat _ => ty_float
  | Ndarray _ => ty_ndarray
  end.

Fixpoint list_Z_eqb (a b : list Z) : bool :=
  match a, b with
  | [], [] => true
  | x :: a', y :: b' => Z.eqb x y && list_Z_eqb a' b'
  | _, _ => false
  end.

(** [a == b] *)
Definition py_eq (a b : pyobj) : bool :=
  match a, b with
  | PyNone, PyNone => true
  | PyInt m, PyInt n => Z.eqb m n
  | PyStr s, PyStr t => String.eqb s t
  | PyTuple xs, PyTuple ys => list_Z_eqb xs ys
  | PyList xs, PyList ys => list_Z_eqb xs ys
  | _, _ => false
  end.

(** [a != b] *)
Definition py_ne (a b : pyobj) : bool := negb (py_eq a b).

(** [str] of the items of a tuple or list, separated by a comma and a
    space. *)
Definition str_items (xs : list Z) : string :=
  join ", " (map str_int xs).

(** [str(o)]; a tuple of one item ends with a comma. *)
Definition py_str (o : pyobj) : string :=
  match o with
  | PyNone => "None"
  | PyInt n => str_int n
  | PyStr s => s
  | PyTuple [x] => "(" ++ str_int x ++ ",)"
  | PyTuple xs => "(" ++ str_items xs ++ ")"
  | PyList xs => "[" ++ str_items xs ++ "]"
  end.

(** [repr] of a list of strings, as [%s] formats it. *)
Definition str_list_str (l : list string) : string :=
  "[" ++ join ", " (map repr_str l) ++ "]".

(** [v.shape]: only an array has the attribute. *)
Definition getattr_shape (v : pyval) : result pyobj :=
  match v with
  | Ndarray dims => Ok (PyTuple dims)
  | _ => Raise (AttributeError
                  ("'" ++ type_name (type_of_val v) ++ "' object has no attribute 'shape'"))
  end.

(** The dimensions a value has at run time, when it has any. *)
Definition runtime_dims (v : pyval) : option (list Z) :=
  match getattr_shape v with
  | Ok (PyTuple dims) => Some dims
  | _ => None
  end.

(** ** Variable metadata *)

(** The dict a parameter or unknown table holds per variable: [val] may be
    missing (then [metadata['val']] raises), [shape] is optional. *)
Record Metadata : Type := {
  md_val : option pyval;
  md_shape : option pyobj
}.

(** [metadata['val']] *)
Definition getitem_val (metadata : Metadata) : result pyval :=
  match md_val metadata with
  | Some v => Ok v
  | None => Raise (KeyError (repr_str "val"))
  end.

(** [metadata.get('shape')] *)
Definition get_shape (metadata : Metadata) : pyobj :=
  match md_shape metadata with
  | Some o => o
  | None => PyNone
  end.

(** [VarMetadata = namedtuple('VarMetadata', 'path val type shape')] *)
Record VarMetadata : Type := {
  path : string;
  val : pyval;
  type : pytype;
  shape : pyobj
}.

(** The message of the [TypeError] that [None['val']] raises. *)
Definition subscript_None_msg : string := "'NoneType' object is not subscriptable".

(** [make_var_metadata(path, metadata)]; [metadata] is what [dict.get]
    returned, [None] for a path that is not in the table. *)
Definition make_var_metadata (path : string) (metadata : option Metadata)
  : result VarMetadata :=
  match metadata with
  | None => Raise (TypeError subscript_None_msg)
  | Some m =>
      v <- getitem_val m ;;
      Ok {| path := path; val := v; type := type_of_val v; shape := get_shape m |}
  end.

Definition type_mismatch_msg (src target : VarMetadata) : string :=
  "Type '" ++ path src ++ " of source '" ++ str_type (type src)
  ++ "' must be the same as type '" ++ path target
  ++ "' of target '" ++ str_type (type target) ++ "'".

Definition check_types_match (src target : VarMetadata) : result unit :=
  if negb (pytype_eqb (type src) (type target))
  then Raise (ConnectError (type_mismatch_msg src target))
  else Ok tt.

Definition shape_mismatch_msg (src target : VarMetadata) : string :=
  "Shape '" ++ py_str (shape src) ++ "' of the source '" ++ path src
  ++ "' must match the shape '" ++ py_str (shape target)
  ++ "' of the target '" ++ path target ++ "'".

Definition __check_shapes_match (src target : VarMetadata) : result unit :=
  if py_ne (shape src) (shape target)
  then Raise (ConnectError (shape_mismatch_msg src target))
  else Ok tt.

Definition val_shape_mismatch_msg (val_shape : pyobj) (src target : VarMetadata)
  : string :=
  "Shape of the initial value '" ++ py_str val_shape ++ "' of source '"
  ++ path src ++ "' must match the shape '" ++ py_str (shape target)
  ++ "' of the target '" ++ path target ++ "'".

Definition __check_val_and_shape_match (src target : VarMetadata) : result unit :=
  val_shape <- getattr_shape (val src) ;;
  if py_ne val_shape (shape target)
  then Raise (ConnectError (val_shape_mismatch_msg val_shape src target))
  else Ok tt.

#[export] Instance Key_type_pair : Key (pytype * pytype).
Proof.
  refine {| key_eqb := fun a b => pytype_eqb (fst a) (fst b) && pytype_eqb (snd a) (snd b) |}.
  intros [a1 a2] [b1 b2].
  destruct a1, b1; simpl; try (constructor; congruence);
    destruct a2, b2; simpl; constructor; congruence.
Defined.

(** The dispatch table of the shape check, keyed by the classes of the two
    shapes. *)
Definition __shape_checks
  : dict (pytype * pytype) (VarMetadata -> VarMetadata -> result unit) :=
  [ ((ty_tuple, ty_tuple), __check_shapes_match);
    ((ty_NoneType, ty_tuple), __check_val_and_shape_match) ].

(** [d.get(k, default)] *)
Definition get_default {K V : Type} `{Key K} (d : dict K V) (k : K) (default : V) : V :=
  match get d k with
  | Some v => v
  | None => default
  end.

Definition check_shapes_match (source target : VarMetadata) : result unit :=
  let source_shape_type := type_of (shape source) in
  let target_shape_type := type_of (shape target) in
  let check_shape_function :=
    get_default __shape_checks (source_shape_type, target_shape_type)
                (fun _ _ => Ok tt) in
  check_shape_function source target.

(** The body of the loop of [check_connections]. *)
Definition check_connection (source target : VarMetadata) : result unit :=
  check_types_match source target ;;;
  check_shapes_match source target.

(** [check_connections] as Python 3 runs it: [map] and [zip] are lazy, so
    the metadata of a connection is built when the loop reaches it, the
    source first. *)
Fixpoint check_connections_loop (conns : list (string * string))
  (params unknowns : dict string Metadata) : result unit :=
  match conns with
  | [] => Ok tt
  | (tgt, src) :: rest =>
      source <- make_var_metadata src (get unknowns src) ;;
      target <- make_var_metadata tgt (get params tgt) ;;
      check_connection source target ;;;
      check_connections_loop rest params unknowns
  end.

Definition check_connections (connections : dict string string)
  (params unknowns : dict string Metadata) : result unit :=
  check_connections_loop (items connections) params unknowns.

(** [map(f, xs)] of a function that may raise, as a list. *)
Fixpoint map_result {A B : Type} (f : A -> result B) (xs : list A) : result (list B) :=
  match xs with
  | [] => Ok []
  | x :: xs' => y <- f x ;; ys <- map_result f xs' ;; Ok (y :: ys)
  end.

Fixpoint check_pairs (pairs : list (VarMetadata * VarMetadata)) : result unit :=
  match pairs with
  | [] => Ok tt
  | (source, target) :: rest => check_connection source target ;;; check_pairs rest
  end.

(** [check_connections] as Python 2 runs it: [map] builds the whole list of
    sources, then that of targets, before the loop starts. *)
Definition check_connections_py2 (connections : dict string string)
  (params unknowns : dict string Metadata) : result unit :=
  sources <- map_result (fun s => make_var_metadata s (get unknowns s))
                        (values connections) ;;
  targets <- map_result (fun t => make_var_metadata t (get params t))
                        (keys connections) ;;
  check_pairs (combine sources targets).

(** ** [Problem.setup] *)

Definition conflict_msg (tgt explicit_src implicit_src : string) : string :=
  tgt ++ " is explicitly connected to " ++ explicit_src
  ++ " but implicitly connected to " ++ implicit_src.

(** The loop that checks for conflicting explicit and implicit connections;
    [todo] is what is left of [connections.items()]. *)
Fixpoint check_conflicts_loop (todo : list (string * string))
  (connections implicit_conns : dict string string) : result unit :=
  match todo with
  | [] => Ok tt
  | (tgt, src) :: rest =>
      if contains implicit_conns tgt then
        explicit_src <- getitem connections tgt ;;
        implicit_src <- getitem implicit_conns tgt ;;
        Raise (RuntimeError (conflict_msg tgt explicit_src implicit_src))
      else check_conflicts_loop rest connections implicit_conns
  end.

Definition check_conflicts (connections implicit_conns : dict string string)
  : result unit :=
  check_conflicts_loop (items connections) connections implicit_conns.

(** The conflict check followed by [connections.update(implicit_conns)]:
    the reconciliation of the two connection mappings. *)
Definition reconcile (connections implicit_conns : dict string string)
  : result (dict string string) :=
  check_conflicts connections implicit_conns ;;;
  Ok (update connections implicit_conns).

(** [hanging_params]: the parameters that are not a key of [connections],
    in the order of the parameter table. *)
Definition hanging_params {V : Type} (params_dict : dict string V)
  (connections : dict string string) : list string :=
  filter (fun p => negb (contains connections p)) (keys params_dict).

Definition hanging_msg (hanging : list string) : string :=
  "Parameters " ++ str_list_str hanging ++ " have no associated unknowns.".

(** The check for parameters that are not connected to a source. *)
Definition check_hanging_params {V : Type} (params_dict : dict string V)
  (connections : dict string string) : result unit :=
  match hanging_params params_dict connections with
  | [] => Ok tt
  | hanging => Raise (RuntimeError (hanging_msg hanging))
  end.

(** ** [assign_parameters] *)

(** The inner loop over [zip(par.split(':'), unk.split(':'))], left at the
    first pair of parts that differ. *)
Fixpoint common_parts_loop (zipped : list (string * string)) : list string :=
  match zipped with
  | [] => []
  | (ppart, upart) :: rest =>
      if String.eqb ppart upart then ppart :: common_parts_loop rest else []
  end.

Definition common_parts (par unk : string) : list string :=
  common_parts_loop (combine (split ":" par) (split ":" unk)).

Definition owner (par unk : string) : string :=
  join ":" (common_parts par unk).

(** [param_owners.setdefault(owner, []).append(par)] *)
Definition setdefault_append (param_owners : dict string (list string))
  (owner par : string) : dict string (list string) :=
  match get param_owners owner with
  | Some targets => setitem param_owners owner (targets ++ [par])%list
  | None => setitem param_owners owner [par]
  end.

Definition assign_parameters (connections : dict string string)
  : dict string (list string) :=
  fold_left (fun param_owners conn =>
               setdefault_append param_owners (owner (fst conn) (snd conn)) (fst conn))
            (items connections) [].

(** [Problem.setup] from the tables the root system returns: the parameter
    and unknown tables, the explicit connections and the implicit ones.
    It ends with the two arguments it hands to [_setup_vectors]. *)
Definition setup (params_dict unknowns_dict : dict string Metadata)
  (connections implicit_conns : dict string string)
  : result (dict string (list string) * dict string string) :=
  connections <- reconcile connections implicit_conns ;;
  check_connections connections params_dict unknowns_dict ;;;
  check_hanging_params params_dict connections ;;;
  Ok (assign_parameters connections, connections).

(** ** Notions the properties are stated with *)

(** [t] is the first key of [d], in iteration order, that [other] has too. *)
Definition first_shared_key {V : Type} (d other : dict string V) (t : string) : Prop :=
  contains other t = true /\
  exists before x after,
    d = (before ++ (t, x) :: after)%list /\
    forall k, In k (keys before) -> contains other k = false.

(** A character that [repr] copies between single quotes unchanged. *)
Definition plain_char (c : ascii) : bool :=
  printable c && negb (Ascii.eqb c squote) && negb (Ascii.eqb c backslash).

Fixpoint plain_str (s : string) : bool :=
  match s with
  | EmptyString => true
  | String c s' => plain_char c && plain_str s'
  end.

(** [l] is a prefix of [m]. *)
Definition is_prefix {A : Type} (l m : list A) : Prop :=
  exists rest, m = (l ++ rest)%list.

(** The longest common prefix of two lists, in the words of the design:
    a prefix of both that no common prefix is longer than. *)
Definition longest_common_prefix {A : Type} (l a b : list A) : Prop :=
  is_prefix l a /\ is_prefix l b /\
  forall l', is_prefix l' a -> is_prefix l' b -> (length l' <= length l)%nat.

Definition owner_of (conn : string * string) : string :=
  owner (fst conn) (snd conn).

(** The targets of the connections that [o] owns, in iteration order. *)
Definition targets_of (o : string) (conns : list (string * string)) : list string :=
  map fst (filter (fun conn => String.eqb (owner_of conn) o) conns).

(** [param_owners.get(o, [])] *)
Definition owned (param_owners : dict string (list string)) (o : string)
  : list string :=
  get_default param_owners o [].

Definition assign_step (param_owners : dict string (list string))
  (conn : string * string) : dict string (list string) :=
  setdefault_append param_owners (owner_of conn) (fst conn).

(** ** [Problem.calc_gradient] *)

(** What a call of [calc_gradient] ends with: the value it returns, or the
    [ValueError] it raises. *)
Inductive gradient_outcome : Type :=
| Returned (v : pyobj)
| ValueError (msg : string).

(** [x in l] for a list [l]: some item equals [x]. *)
Definition py_in (x : pyobj) (l : list pyobj) : bool :=
  existsb (fun item => py_eq item x) l.

(** An optional argument: the default when the caller leaves it out. *)
Definition arg_or (default : pyobj) (arg : option pyobj) : pyobj :=
  match arg with
  | Some a => a
  | None => default
  end.

(** [calc_gradient(params, unknowns, mode='auto', return_format='array')]:
    the two checks of its arguments, then [pass]. *)
Definition calc_gradient (params unknowns : list string)
  (mode return_format : option pyobj) : gradient_outcome :=
  let mode := arg_or (PyStr "auto") mode in
  let return_format := arg_or (PyStr "array") return_format in
  if negb (py_in mode [PyStr "auto"; PyStr "fwd"; PyStr "rev"]) then
    ValueError "mode must be 'auto', 'fwd', or 'rev'"
  else if negb (py_in return_format [PyStr "array"; PyStr "dict"]) then
    ValueError "return_format must be 'array' or 'dict'"
  else Returned PyNone.

(** ** Further notions *)

(** The exceptions the checks of one connection can end with. *)
Definition is_ConnectError (e : exn) : bool :=
  match e with ConnectError _ => true | _ => false end.

Definition is_RuntimeError (e : exn) : bool :=
  match e with RuntimeError _ => true | _ => false end.

(** No target of [connections] is a key of [implicit_conns]. *)
Definition disjoint_keys (connections implicit_conns : dict string string) : Prop :=
  forall k, In k (keys connections) -> ~ In k (keys implicit_conns).

(** [s] starts with [pre]: the rest is empty or begins at a colon. *)
Definition ancestor_path (pre s : string) : Prop :=
  exists rest, s = pre ++ rest /\
    (rest = "" \/ pre = "" \/ exists rest', rest = String ":" rest').

(** * Properties *)

Lemma pytype_eqb_spec (a b : pytype) : reflect (a = b) (pytype_eqb a b).
Proof. destruct a, b; simpl; constructor; congruence. Qed.

(** ** Strings *)

Lemma append_assoc (a b c : string) : (a ++ b) ++ c = a ++ b ++ c.
Proof. induction a as [|ch a IH]; simpl; [reflexivity | now rewrite IH]. Qed.

Lemma append_empty_r (a : string) : a ++ "" = a.
Proof. induction a as [|ch a IH]; simpl; [reflexivity | now rewrite IH]. Qed.

Lemma names_here (x after : string) : names (x ++ after) x.
Proof. exists "", after; reflexivity. Qed.

Lemma names_refl (x : string) : names x x.
Proof. exists "", ""; simpl; now rewrite append_empty_r. Qed.

Lemma names_later (before msg x : string) : names msg x -> names (before ++ msg) x.
Proof.
  intros (b & a & ->). exists (before ++ b), a. now rewrite append_assoc.
Qed.

Lemma names_earlier (msg after x : string) : names msg x -> names (msg ++ after) x.
Proof.
  intros (b & a & ->). exists b, (a ++ after). now rewrite !append_assoc.
Qed.

Lemma names_trans (msg x y : string) : names msg x -> names x y -> names msg y.
Proof.
  intros (b & a & ->) (b' & a' & ->). exists (b ++ b'), (a' ++ a).
  now rewrite !append_assoc.
Qed.

Lemma prefix_append (x rest : string) : String.prefix x (x ++ rest) = true.
Proof.
  induction x as [|c x IH]; simpl; [now destruct rest|].
  destruct (Ascii.ascii_dec c c); [exact IH | congruence].
Qed.

Lemma contains_str_prefix (x s : string) :
  String.prefix x s = true -> contains_str x s = true.
Proof. intros E. destruct s; cbn [contains_str]; rewrite E; reflexivity. Qed.

Lemma names_contains_str (msg x : string) : names msg x -> contains_str x msg = true.
Proof.
  intros (b & a & ->). induction b as [|c b IH]; simpl.
  - apply contains_str_prefix, prefix_append.
  - rewrite IH. apply orb_true_r.
Qed.

Lemma not_names (msg x : string) : contains_str x msg = false -> ~ names msg x.
Proof. intros E N. apply names_contains_str in N. congruence. Qed.

(** Search for [names] goals on messages built with [++]. *)
Ltac find_name :=
  solve [ apply names_refl
        | apply names_here
        | apply names_later; find_name ].

(** ** Dictionaries *)

Section DictFacts.
Context {K V : Type} `{Key K}.
Implicit Types (d : dict K V) (k : K) (v : V).

Lemma key_eqb_refl k : key_eqb k k = true.
Proof. destruct (key_eqb_spec k k); congruence. Qed.

Lemma key_eqb_neq k k' : k <> k' -> key_eqb k k' = false.
Proof. destruct (key_eqb_spec k k'); congruence. Qed.

Lemma get_In d k v : get d k = Some v -> In (k, v) d.
Proof.
  induction d as [|[k' v'] d IH]; simpl; [discriminate|].
  destruct (key_eqb_spec k' k) as [->|N].
  - intros [= ->]; now left.
  - intros E; right; auto.
Qed.

Lemma get_None d k : get d k = None <-> ~ In k (keys d).
Proof.
  induction d as [|[k' v'] d IH]; simpl.
  - tauto.
  - destruct (key_eqb_spec k' k) as [->|N].
    + split; [discriminate | intros N; exfalso; auto].
    + rewrite IH. tauto.
Qed.

Lemma contains_In d k : contains d k = true <-> In k (keys d).
Proof.
  unfold contains. destruct (get d k) eqn:E.
  - split; [intros _ | reflexivity].
    apply get_In in E. apply (in_map fst) in E. exact E.
  - apply get_None in E. split; [discriminate | tauto].
Qed.

Lemma contains_false d k : contains d k = false <-> ~ In k (keys d).
Proof.
  rewrite <- contains_In. destruct (contains d k); split; congruence.
Qed.

Lemma In_get d k v : well_formed d -> In (k, v) d -> get d k = Some v.
Proof.
  unfold well_formed. induction d as [|[k' v'] d IH]; simpl; [tauto|].
  intros ND [E|I]; inversion ND as [|? ? NI ND']; subst.
  - injection E as -> ->. now rewrite key_eqb_refl.
  - destruct (key_eqb_spec k' k) as [->|N]; [|auto].
    exfalso. apply NI. apply (in_map fst) in I. exact I.
Qed.

Lemma get_app d d' k :
  get (d ++ d')%list k = match get d k with Some v => Some v | None => get d' k end.
Proof.
  induction d as [|[k' v'] d IH]; simpl; [reflexivity|].
  destruct (key_eqb k' k); [reflexivity | exact IH].
Qed.

Lemma setitem_fresh d k v : ~ In k (keys d) -> setitem d k v = (d ++ [(k, v)])%list.
Proof.
  induction d as [|[k' v'] d IH]; simpl; [reflexivity|].
  intros N. rewrite key_eqb_neq by (intros ->; tauto).
  rewrite IH by tauto. reflexivity.
Qed.

Lemma keys_app d d' : keys (d ++ d')%list = (keys d ++ keys d')%list.
Proof. apply map_app. Qed.

(** Updating with a dict whose keys are all new appends it. *)
Lemma update_disjoint d other :
  well_formed other ->
  (forall k, In k (keys d) -> ~ In k (keys other)) ->
  update d other = (d ++ other)%list.
Proof.
  unfold update, items, well_formed. revert d.
  induction other as [|[k v] other IH]; intros d ND D; simpl.
  - now rewrite app_nil_r.
  - simpl in ND. inversion ND as [|? ? NI ND']; subst.
    rewrite setitem_fresh by (intros I; apply (D k I); now left).
    rewrite IH; [now rewrite <- app_assoc | exact ND' |].
    intros k' I I'. rewrite keys_app in I. apply in_app_or in I.
    destruct I as [I|[<-|[]]]; [apply (D k' I); now right | tauto].
Qed.
End DictFacts.

(** ** Reconciliation of explicit and implicit connections *)

Section Conflicts.
Variables connections implicit_conns : dict string string.

Lemma check_conflicts_loop_none (todo : list (string * string)) :
  (forall k, In k (keys todo) -> contains implicit_conns k = false) ->
  check_conflicts_loop todo connections implicit_conns = Ok tt.
Proof.
  induction todo as [|[tgt src] todo IH]; simpl; intros D; [reflexivity|].
  rewrite (D tgt) by now left. apply IH. intros k I. apply D. now right.
Qed.

Lemma check_conflicts_loop_first (before after : list (string * string))
  (tgt src : string) :
  (forall k, In k (keys before) -> contains implicit_conns k = false) ->
  contains implicit_conns tgt = true ->
  check_conflicts_loop (before ++ (tgt, src) :: after)%list connections implicit_conns
  = (explicit_src <- getitem connections tgt ;;
     implicit_src <- getitem implicit_conns tgt ;;
     Raise (RuntimeError (conflict_msg tgt explicit_src implicit_src))).
Proof.
  induction before as [|[k v] before IH]; simpl; intros D C.
  - now rewrite C.
  - rewrite (D k) by now left. apply IH; [|exact C].
    intros k' I. apply D. now right.
Qed.

Lemma shared_key_split (todo : list (string * string)) (t : string) :
  In t (keys todo) -> contains implicit_conns t = true ->
  exists t', first_shared_key todo implicit_conns t'.
Proof.
  induction todo as [|[k v] todo IH]; simpl; [tauto|].
  intros I C. destruct (contains implicit_conns k) eqn:Ck.
  - exists k. split; [exact Ck|]. exists [], v, todo. split; [reflexivity|].
    simpl; tauto.
  - destruct I as [->|I]; [congruence|].
    destruct (IH I C) as (t' & Ct' & before & x & after & -> & D).
    exists t'. split; [exact Ct'|]. exists ((k, v) :: before), x, after.
    split; [reflexivity|]. simpl. intros k' [<-|I']; auto.
Qed.

(** The conflict check raises for the first explicit target that is
    implicitly connected too, whatever the two sources are. *)
Lemma check_conflicts_first_shared (t : string) :
  first_shared_key connections implicit_conns t ->
  exists explicit_src implicit_src,
    get connections t = Some explicit_src /\
    get implicit_conns t = Some implicit_src /\
    check_conflicts connections implicit_conns
    = Raise (RuntimeError (conflict_msg t explicit_src implicit_src)).
Proof.
  intros (C & before & x & after & E & D).
  pose proof (check_conflicts_loop_first before after t x D C) as L.
  rewrite <- E in L. unfold check_conflicts, items. rewrite L. clear L.
  assert (G : get connections t = Some x).
  { rewrite E, get_app.
    assert (N : get before t = None).
    { apply get_None. intros I. specialize (D t I). congruence. }
    rewrite N. simpl. now rewrite String.eqb_refl. }
  unfold contains in C. unfold getitem. rewrite G.
  destruct (get implicit_conns t) as [y|]; [|discriminate].
  exists x, y. simpl. auto.
Qed.

Lemma reconcile_first_shared (t explicit_src implicit_src : string) :
  first_shared_key connections implicit_conns t ->
  get connections t = Some explicit_src ->
  get implicit_conns t = Some implicit_src ->
  reconcile connections implicit_conns
  = Raise (RuntimeError (conflict_msg t explicit_src implicit_src)).
Proof.
  intros F Ge Gi. destruct (check_conflicts_first_shared t F) as (x & y & Gx & Gy & E).
  unfold reconcile. rewrite E. simpl. congruence.
Qed.

Lemma reconcile_shared (t explicit_src implicit_src : string) :
  get connections t = Some explicit_src ->
  get implicit_conns t = Some implicit_src ->
  exists t' explicit_src' implicit_src',
    first_shared_key connections implicit_conns t' /\
    get connections t' = Some explicit_src' /\
    get implicit_conns t' = Some implicit_src' /\
    reconcile connections implicit_conns
    = Raise (RuntimeError (conflict_msg t' explicit_src' implicit_src')).
Proof.
  intros Ge Gi.
  destruct (shared_key_split connections t) as (t' & F).
  { apply get_In in Ge. apply (in_map fst) in Ge. exact Ge. }
  { unfold contains. now rewrite Gi. }
  destruct (check_conflicts_first_shared t' F) as (x & y & Gx & Gy & E).
  exists t', x, y. split; [exact F | split; [exact Gx | split; [exact Gy|]]].
  now apply reconcile_first_shared.
Qed.

Lemma reconcile_disjoint :
  well_formed implicit_conns ->
  (forall k, In k (keys connections) -> ~ In k (keys implicit_conns)) ->
  reconcile connections implicit_conns = Ok (connections ++ implicit_conns)%list.
Proof.
  intros WF D. unfold reconcile, check_conflicts, items.
  rewrite check_conflicts_loop_none.
  - simpl. now rewrite update_disjoint.
  - intros k I. apply contains_false. now apply D.
Qed.
End Conflicts.

(** C1, as the code has it: a target that both the explicit and the
    implicit mapping connect to one and the same source is a conflict all
    the same.  Reconciliation raises [RuntimeError] and yields no merged
    mapping; when that target is the first shared key of the explicit
    mapping, the message reads that it is explicitly connected to the
    source but implicitly connected to the source. *)
Theorem reconcile_same_source_raises (explicit implicit : dict string string)
  (t s : string) :
  get explicit t = Some s ->
  get implicit t = Some s ->
  raises_RuntimeError (reconcile explicit implicit) /\
  (forall merged, reconcile explicit implicit <> Ok merged) /\
  (first_shared_key explicit implicit t ->
   reconcile explicit implicit = Raise (RuntimeError (conflict_msg t s s))).
Proof.
  intros Ge Gi.
  destruct (reconcile_shared explicit implicit t s s Ge Gi)
    as (t' & x & y & _ & _ & _ & E).
  split; [|split].
  - eexists; exact E.
  - intros merged; rewrite E; discriminate.
  - intros F. now apply reconcile_first_shared.
Qed.

Lemma reconcile_same_source_raises_witness :
  get [("C2:x", "C1:x")] "C2:x" = Some "C1:x" /\
  get [("C2:x", "C1:x"); ("C3:y", "C1:y")] "C2:x" = Some "C1:x" /\
  raises_RuntimeError
    (reconcile [("C2:x", "C1:x")] [("C2:x", "C1:x"); ("C3:y", "C1:y")]).
Proof.
  split; [reflexivity | split; [reflexivity|]].
  apply (reconcile_same_source_raises
           [("C2:x", "C1:x")] [("C2:x", "C1:x"); ("C3:y", "C1:y")] "C2:x" "C1:x");
    reflexivity.
Defined.

(** C1 fails as stated: the target C2:x has the source C1:x in both
    mappings, and reconciliation raises instead of returning a merged
    mapping. *)
Lemma reconcile_same_source_counterexample :
  get [("C2:x", "C1:x")] "C2:x" = Some "C1:x" /\
  get [("C2:x", "C1:x")] "C2:x" = Some "C1:x" /\
  reconcile [("C2:x", "C1:x")] [("C2:x", "C1:x")]
  = Raise (RuntimeError "C2:x is explicitly connected to C1:x but implicitly connected to C1:x") /\
  (forall merged, reconcile [("C2:x", "C1:x")] [("C2:x", "C1:x")] <> Ok merged).
Proof. repeat split; try reflexivity. intros merged; discriminate. Qed.

(** C4, as the code has it: when a target has differing sources in the two
    mappings, reconciliation raises [RuntimeError], and the message names
    the first key of the explicit mapping, in iteration order, that the
    implicit mapping has too, with the explicit and the implicit source of
    that key.  It names the given target and its two sources when the
    given target is that first shared key. *)
Theorem reconcile_conflict_raises (explicit implicit : dict string string)
  (t explicit_src implicit_src : string) :
  get explicit t = Some explicit_src ->
  get implicit t = Some implicit_src ->
  explicit_src <> implicit_src ->
  (exists t' explicit_src' implicit_src' msg,
      first_shared_key explicit implicit t' /\
      get explicit t' = Some explicit_src' /\
      get implicit t' = Some implicit_src' /\
      reconcile explicit implicit = Raise (RuntimeError msg) /\
      msg = conflict_msg t' explicit_src' implicit_src' /\
      names msg t' /\ names msg explicit_src' /\ names msg implicit_src') /\
  (first_shared_key explicit implicit t ->
   reconcile explicit implicit
   = Raise (RuntimeError (conflict_msg t explicit_src implicit_src))).
Proof.
  intros Ge Gi _.
  destruct (reconcile_shared explicit implicit t _ _ Ge Gi)
    as (t' & x & y & F & Gx & Gy & E).
  split.
  - exists t', x, y, (conflict_msg t' x y).
    split; [exact F | split; [exact Gx | split; [exact Gy | split; [exact E|]]]].
    split; [reflexivity|]. unfold conflict_msg. repeat split; find_name.
  - intros Ft. now apply reconcile_first_shared.
Qed.

Lemma reconcile_conflict_raises_witness :
  reconcile [("C2:x", "C1:x")] [("C2:x", "P:x")]
  = Raise (RuntimeError "C2:x is explicitly connected to C1:x but implicitly connected to P:x").
Proof.
  refine (proj2 (reconcile_conflict_raises
                   [("C2:x", "C1:x")] [("C2:x", "P:x")] "C2:x" "C1:x" "P:x"
                   eq_refl eq_refl _) _).
  - discriminate.
  - split; [reflexivity|]. exists [], "C1:x", []. split; [reflexivity|].
    simpl; tauto.
Defined.

(** C4 fails as stated when two targets conflict: the loop raises at the
    first one, so for the target C3:y the message names neither C3:y nor
    its sources. *)
Lemma reconcile_conflict_counterexample :
  let explicit := [("C2:x", "C1:x"); ("C3:y", "C1:y")] in
  let implicit := [("C2:x", "P:x"); ("C3:y", "Q:y")] in
  let msg := "C2:x is explicitly connected to C1:x but implicitly connected to P:x" in
  get explicit "C3:y" = Some "C1:y" /\
  get implicit "C3:y" = Some "Q:y" /\
  "C1:y" <> "Q:y" /\
  reconcile explicit implicit = Raise (RuntimeError msg) /\
  ~ names msg "C3:y" /\ ~ names msg "C1:y" /\ ~ names msg "Q:y".
Proof.
  repeat split; try reflexivity; try discriminate; apply not_names; reflexivity.
Qed.

(** C7: when no target is a key of both mappings, reconciliation succeeds
    and the result is the union of the two: the explicit connections
    followed by the implicit ones, so a pair is in the result exactly when
    it is in one of the two, and a lookup finds what the mapping that has
    the key finds. *)
Theorem reconcile_disjoint_union (explicit implicit : dict string string) :
  well_formed implicit ->
  (forall k, In k (keys explicit) -> ~ In k (keys implicit)) ->
  exists merged,
    reconcile explicit implicit = Ok merged /\
    merged = (explicit ++ implicit)%list /\
    (forall t s, In (t, s) merged <-> In (t, s) explicit \/ In (t, s) implicit) /\
    (forall t, get merged t
               = match get explicit t with
                 | Some s => Some s
                 | None => get implicit t
                 end).
Proof.
  intros WF D. exists (explicit ++ implicit)%list.
  split; [now apply reconcile_disjoint | split; [reflexivity | split]].
  - intros t s. apply in_app_iff.
  - intros t. apply get_app.
Qed.

Lemma reconcile_disjoint_union_witness :
  exists merged,
    reconcile [("C2:x", "C1:x")] [("C3:y", "C1:y"); ("C4:z", "C1:z")] = Ok merged /\
    merged = [("C2:x", "C1:x"); ("C3:y", "C1:y"); ("C4:z", "C1:z")].
Proof.
  destruct (reconcile_disjoint_union [("C2:x", "C1:x")] [("C3:y", "C1:y"); ("C4:z", "C1:z")])
    as (merged & E & M & _).
  - unfold well_formed; simpl. repeat constructor; simpl; intuition discriminate.
  - simpl. intros k [<-|[]] [E|[E|[]]]; discriminate.
  - exists merged. split; [exact E | exact M].
Defined.

(** ** The type and shape checks of one connection *)

Lemma list_Z_eqb_spec (a b : list Z) : reflect (a = b) (list_Z_eqb a b).
Proof.
  revert b. induction a as [|x a IH]; intros [|y b]; simpl; try (constructor; congruence).
  destruct (Z.eqb_spec x y) as [->|N]; simpl.
  - destruct (IH b) as [->|N]; constructor; congruence.
  - constructor; congruence.
Qed.

Lemma py_eq_spec (a b : pyobj) : reflect (a = b) (py_eq a b).
Proof.
  destruct a as [|m|s|xs|xs], b as [|n|t|ys|ys]; simpl;
    try (constructor; congruence).
  - destruct (Z.eqb_spec m n); constructor; congruence.
  - destruct (String.eqb_spec s t); constructor; congruence.
  - destruct (list_Z_eqb_spec xs ys); constructor; congruence.
  - destruct (list_Z_eqb_spec xs ys); constructor; congruence.
Qed.

Lemma py_ne_tuples (a b : list Z) :
  py_ne (PyTuple a) (PyTuple b) = true <-> a <> b.
Proof.
  unfold py_ne; simpl. destruct (list_Z_eqb_spec a b); simpl; split; congruence.
Qed.

Lemma py_ne_same (o : pyobj) : py_ne o o = false.
Proof. unfold py_ne. destruct (py_eq_spec o o); [reflexivity | congruence]. Qed.

Lemma check_types_match_same (source target : VarMetadata) :
  type source = type target -> check_types_match source target = Ok tt.
Proof.
  unfold check_types_match. intros ->.
  destruct (pytype_eqb_spec (type target) (type target)); [reflexivity | congruence].
Qed.

Lemma check_types_match_differ (source target : VarMetadata) :
  type source <> type target ->
  check_types_match source target
  = Raise (ConnectError (type_mismatch_msg source target)).
Proof.
  unfold check_types_match. intros N.
  destruct (pytype_eqb_spec (type source) (type target)); [congruence | reflexivity].
Qed.

(** With equal kinds, the check of a connection is its shape check. *)
Lemma check_connection_same_type (source target : VarMetadata) :
  type source = type target ->
  check_connection source target = check_shapes_match source target.
Proof.
  intros E. unfold check_connection. now rewrite check_types_match_same.
Qed.

(** The shape check by the classes of the two shapes. *)
Lemma check_shapes_match_tuples (source target : VarMetadata) (a b : list Z) :
  shape source = PyTuple a -> shape target = PyTuple b ->
  check_shapes_match source target = __check_shapes_match source target.
Proof. unfold check_shapes_match. intros -> ->. reflexivity. Qed.

Lemma check_shapes_match_none_tuple (source target : VarMetadata) (b : list Z) :
  shape source = PyNone -> shape target = PyTuple b ->
  check_shapes_match source target = __check_val_and_shape_match source target.
Proof. unfold check_shapes_match. intros -> ->. reflexivity. Qed.

Lemma check_shapes_match_fallback (source target : VarMetadata) :
  (type_of (shape source), type_of (shape target)) <> (ty_tuple, ty_tuple) ->
  (type_of (shape source), type_of (shape target)) <> (ty_NoneType, ty_tuple) ->
  get __shape_checks (type_of (shape source), type_of (shape target)) = None /\
  check_shapes_match source target = Ok tt.
Proof.
  unfold check_shapes_match.
  destruct (shape source), (shape target); simpl; intros N1 N2;
    try (split; reflexivity); congruence.
Qed.

Lemma runtime_dims_Some (v : pyval) (dims : list Z) :
  runtime_dims v = Some dims <-> getattr_shape v = Ok (PyTuple dims).
Proof.
  unfold runtime_dims. destruct v as [o| |d]; simpl; split; congruence.
Qed.

Lemma runtime_dims_None (v : pyval) :
  runtime_dims v = None ->
  getattr_shape v
  = Raise (AttributeError
             ("'" ++ type_name (type_of_val v) ++ "' object has no attribute 'shape'")).
Proof. unfold runtime_dims. destruct v as [o| |d]; simpl; congruence. Qed.

(** C2, as the code has it.  For a connection whose kinds match:
    - two tuple shapes: [ConnectError] exactly when the tuples differ;
    - no source shape and a tuple as target shape: [ConnectError] exactly
      when the source value has dimensions at run time (a [shape]
      attribute) and they differ from the target shape; for a source value
      without the attribute the check raises [AttributeError];
    - every other pair of shape classes: no check, the result is success. *)
Theorem check_shape_matrix (source target : VarMetadata) :
  type source = type target ->
  (forall a b, shape source = PyTuple a -> shape target = PyTuple b ->
     (raises_ConnectError (check_connection source target) <-> a <> b) /\
     (a = b -> check_connection source target = Ok tt)) /\
  (forall b dims, shape source = PyNone -> shape target = PyTuple b ->
     runtime_dims (val source) = Some dims ->
     (raises_ConnectError (check_connection source target) <-> dims <> b) /\
     (dims = b -> check_connection source target = Ok tt)) /\
  (forall b, shape source = PyNone -> shape target = PyTuple b ->
     runtime_dims (val source) = None ->
     exists msg, check_connection source target = Raise (AttributeError msg)) /\
  ((type_of (shape source), type_of (shape target)) <> (ty_tuple, ty_tuple) ->
   (type_of (shape source), type_of (shape target)) <> (ty_NoneType, ty_tuple) ->
   check_connection source target = Ok tt).
Proof.
  intros T. rewrite (check_connection_same_type _ _ T).
  split; [|split; [|split]].
  - intros a b Sa Sb. rewrite (check_shapes_match_tuples _ _ a b Sa Sb).
    unfold __check_shapes_match, raises_ConnectError. rewrite Sa, Sb.
    destruct (py_ne (PyTuple a) (PyTuple b)) eqn:E.
    + apply py_ne_tuples in E. split; [split; [tauto | eauto] | tauto].
    + assert (~ a <> b) by (rewrite <- py_ne_tuples; congruence).
      split; [split; [intros [msg [=]] | tauto] | reflexivity].
  - intros b dims Sa Sb R. rewrite (check_shapes_match_none_tuple _ _ b Sa Sb).
    apply runtime_dims_Some in R.
    unfold __check_val_and_shape_match, raises_ConnectError. rewrite R, Sb. simpl.
    destruct (py_ne (PyTuple dims) (PyTuple b)) eqn:E.
    + apply py_ne_tuples in E. split; [split; [tauto | eauto] | tauto].
    + assert (~ dims <> b) by (rewrite <- py_ne_tuples; congruence).
      split; [split; [intros [msg [=]] | tauto] | reflexivity].
  - intros b Sa Sb R. rewrite (check_shapes_match_none_tuple _ _ b Sa Sb).
    unfold __check_val_and_shape_match. rewrite (runtime_dims_None _ R). simpl. eauto.
  - intros N1 N2. now apply check_shapes_match_fallback.
Qed.

Lemma check_shape_matrix_witness :
  let source := {| path := "C1:y"; val := Ndarray [2%Z; 3%Z]; type := ty_ndarray;
                   shape := PyNone |} in
  let target := {| path := "C2:y"; val := Ndarray [2%Z; 2%Z]; type := ty_ndarray;
                   shape := PyTuple [2%Z; 2%Z] |} in
  raises_ConnectError (check_connection source target).
Proof.
  cbv zeta.
  refine (proj2 (proj1 (proj1 (proj2 (check_shape_matrix
                                        {| path := "C1:y"; val := Ndarray [2%Z; 3%Z];
                                           type := ty_ndarray; shape := PyNone |}
                                        {| path := "C2:y"; val := Ndarray [2%Z; 2%Z];
                                           type := ty_ndarray;
                                           shape := PyTuple [2%Z; 2%Z] |}
                                        eq_refl))
                          [2%Z; 2%Z] [2%Z; 3%Z] eq_refl eq_refl eq_refl)) _).
  discriminate.
Defined.

(** C2 fails as stated for a source value without dimensions: a float
    source without a shape and a target that declares the shape (2, 2)
    have equal kinds, the value's dimensions are not (2, 2), and yet no
    [ConnectError] is raised: reading [val.shape] raises [AttributeError],
    and so does [check_connections] on the tables that hold the two. *)
Lemma check_shape_matrix_counterexample :
  let unknowns := [("C1:y", {| md_val := Some (PyFloat 0); md_shape := None |})] in
  let params := [("C2:y", {| md_val := Some (PyFloat 0);
                             md_shape := Some (PyTuple [2%Z; 2%Z]) |})] in
  let source := {| path := "C1:y"; val := PyFloat 0; type := ty_float;
                   shape := PyNone |} in
  let target := {| path := "C2:y"; val := PyFloat 0; type := ty_float;
                   shape := PyTuple [2%Z; 2%Z] |} in
  make_var_metadata "C1:y" (get unknowns "C1:y") = Ok source /\
  make_var_metadata "C2:y" (get params "C2:y") = Ok target /\
  type source = type target /\
  shape source = PyNone /\
  shape target = PyTuple [2%Z; 2%Z] /\
  runtime_dims (val source) <> Some [2%Z; 2%Z] /\
  check_connection source target
  = Raise (AttributeError "'float' object has no attribute 'shape'") /\
  ~ raises_ConnectError (check_connection source target) /\
  check_connections [("C2:y", "C1:y")] params unknowns
  = Raise (AttributeError "'float' object has no attribute 'shape'").
Proof.
  cbv zeta. repeat split; try reflexivity; try discriminate.
  intros [msg E]. discriminate E.
Qed.

(** ** [check_connections] over a whole mapping *)

Section CheckConnections.
Variables params unknowns : dict string Metadata.

Lemma check_connections_loop_app (before after : list (string * string)) :
  check_connections_loop (before ++ after)%list params unknowns
  = (check_connections_loop before params unknowns ;;;
     check_connections_loop after params unknowns).
Proof.
  induction before as [|[tgt src] before IH]; simpl; [reflexivity|].
  destruct (make_var_metadata src (get unknowns src)) as [source|];
    simpl; [|reflexivity].
  destruct (make_var_metadata tgt (get params tgt)) as [target|];
    simpl; [|reflexivity].
  destruct (check_connection source target); simpl; [exact IH | reflexivity].
Qed.

(** The loop reaches a connection when those before it pass. *)
Lemma check_connections_loop_reach (before after : list (string * string))
  (tgt src : string) :
  check_connections_loop before params unknowns = Ok tt ->
  check_connections_loop (before ++ (tgt, src) :: after)%list params unknowns
  = (source <- make_var_metadata src (get unknowns src) ;;
     target <- make_var_metadata tgt (get params tgt) ;;
     check_connection source target ;;;
     check_connections_loop after params unknowns).
Proof. intros E. rewrite check_connections_loop_app, E. reflexivity. Qed.

(** A mapping passes exactly when each of its connections does. *)
Lemma check_connections_loop_Ok (conns : list (string * string)) :
  check_connections_loop conns params unknowns = Ok tt <->
  forall tgt src, In (tgt, src) conns ->
    exists source target,
      make_var_metadata src (get unknowns src) = Ok source /\
      make_var_metadata tgt (get params tgt) = Ok target /\
      check_connection source target = Ok tt.
Proof.
  induction conns as [|[tgt src] conns IH]; simpl.
  - split; [intros _ ? ? [] | reflexivity].
  - split.
    + intros E tgt' src' I.
      destruct (make_var_metadata src (get unknowns src)) as [source|] eqn:Es;
        simpl in E; [|discriminate].
      destruct (make_var_metadata tgt (get params tgt)) as [target|] eqn:Et;
        simpl in E; [|discriminate].
      destruct (check_connection source target) as [[]|] eqn:Ec;
        simpl in E; [|discriminate].
      destruct I as [[= <- <-]|I].
      * exists source, target. auto.
      * apply (proj1 IH E _ _ I).
    + intros A. destruct (A tgt src (or_introl eq_refl))
        as (source & target & -> & -> & Ec).
      simpl. rewrite Ec. simpl. apply IH. intros tgt' src' I. apply A. now right.
Qed.
End CheckConnections.

Lemma make_var_metadata_Ok (p : string) (metadata : option Metadata) (m : VarMetadata) :
  make_var_metadata p metadata = Ok m ->
  exists md v, metadata = Some md /\ md_val md = Some v /\
    m = {| path := p; val := v; type := type_of_val v; shape := get_shape md |}.
Proof.
  destruct metadata as [md|]; simpl; [|discriminate].
  unfold getitem_val. destruct (md_val md) as [v|] eqn:E; simpl; [|discriminate].
  intros [= <-]. exists md, v. auto.
Qed.

Lemma make_var_metadata_present (p : string) (md : Metadata) :
  ~ raises_TypeError (make_var_metadata p (Some md)).
Proof.
  simpl. unfold getitem_val. destruct (md_val md); simpl; intros [msg E]; discriminate.
Qed.

Lemma check_connection_no_TypeError (source target : VarMetadata) :
  ~ raises_TypeError (check_connection source target).
Proof.
  unfold check_connection, check_types_match.
  destruct (negb (pytype_eqb (type source) (type target))); simpl;
    [intros [msg E]; discriminate|].
  unfold check_shapes_match.
  destruct (shape source) eqn:Ss, (shape target) eqn:St; cbn;
    try (intros [msg E]; discriminate).
  - unfold __check_val_and_shape_match.
    destruct (getattr_shape (val source)) as [o|e] eqn:G; simpl.
    + destruct (py_ne o (shape target)); intros [msg E]; discriminate.
    + destruct (val source); simpl in G; try discriminate;
        injection G as <-; intros [msg E]; discriminate.
  - unfold __check_shapes_match.
    destruct (py_ne (shape source) (shape target)); intros [msg E]; discriminate.
Qed.

(** C5: a connection whose source and target kinds differ raises
    [ConnectError], with a message that names both paths and both kinds;
    a connection whose kinds are equal and whose shapes are equal (both
    absent included) passes.  Over a mapping: the first connection with
    differing kinds, those before it passing, makes [check_connections]
    raise that error, and a mapping all of whose connections have equal
    kinds and equal shapes passes. *)
Theorem check_connection_kinds (source target : VarMetadata) :
  (type source <> type target ->
   exists msg,
     check_connection source target = Raise (ConnectError msg) /\
     msg = type_mismatch_msg source target /\
     names msg (path source) /\ names msg (path target) /\
     names msg (str_type (type source)) /\ names msg (str_type (type target)) /\
     names msg (type_qualname (type source)) /\
     names msg (type_qualname (type target))) /\
  (type source = type target -> shape source = shape target ->
   check_connection source target = Ok tt) /\
  (forall params unknowns before after tgt src,
     check_connections before params unknowns = Ok tt ->
     make_var_metadata src (get unknowns src) = Ok source ->
     make_var_metadata tgt (get params tgt) = Ok target ->
     type source <> type target ->
     check_connections (before ++ (tgt, src) :: after)%list params unknowns
     = Raise (ConnectError (type_mismatch_msg source target))) /\
  (forall params unknowns connections,
     (forall tgt src, In (tgt, src) connections ->
        exists source' target',
          make_var_metadata src (get unknowns src) = Ok source' /\
          make_var_metadata tgt (get params tgt) = Ok target' /\
          type source' = type target' /\ shape source' = shape target') ->
     check_connections connections params unknowns = Ok tt).
Proof.
  assert (Same : forall s t : VarMetadata,
             type s = type t -> shape s = shape t -> check_connection s t = Ok tt).
  { intros s t T S. rewrite (check_connection_same_type _ _ T).
    unfold check_shapes_match. rewrite S.
    destruct (shape t) eqn:St; cbn; try reflexivity.
    unfold __check_shapes_match. rewrite S, St. now rewrite py_ne_same. }
  split; [|split; [|split]].
  - intros N. exists (type_mismatch_msg source target).
    unfold check_connection. rewrite (check_types_match_differ _ _ N).
    split; [reflexivity | split; [reflexivity|]].
    assert (Q : forall t, names (str_type t) (type_qualname t))
      by (intros t; unfold str_type; find_name).
    unfold type_mismatch_msg.
    repeat split; try find_name; (eapply names_trans; [|apply Q]); find_name.
  - apply Same.
  - intros params unknowns before after tgt src B Ms Mt N.
    unfold check_connections, items in *.
    rewrite (check_connections_loop_reach _ _ _ _ _ _ B), Ms, Mt. simpl.
    unfold check_connection. now rewrite (check_types_match_differ _ _ N).
  - intros params unknowns connections A.
    apply check_connections_loop_Ok. intros tgt src I.
    destruct (A tgt src I) as (s & t & Ms & Mt & T & S).
    exists s, t. auto.
Qed.

Lemma check_connection_kinds_witness :
  let source := {| path := "C1:y"; val := Ndarray [3%Z]; type := ty_ndarray;
                   shape := PyTuple [3%Z] |} in
  let target := {| path := "C2:y"; val := PyFloat 0; type := ty_float;
                   shape := PyNone |} in
  check_connection source target
  = Raise (ConnectError
             "Type 'C1:y of source '<class 'numpy.ndarray'>' must be the same as type 'C2:y' of target '<class 'float'>'") /\
  check_connection source source = Ok tt.
Proof.
  cbv zeta. split.
  - destruct (proj1 (check_connection_kinds
                       {| path := "C1:y"; val := Ndarray [3%Z]; type := ty_ndarray;
                          shape := PyTuple [3%Z] |}
                       {| path := "C2:y"; val := PyFloat 0; type := ty_float;
                          shape := PyNone |}))
      as (msg & E & M & _).
    + discriminate.
    + rewrite E, M. reflexivity.
  - apply check_connection_kinds; reflexivity.
Defined.

(** C10: the dispatch table has an entry for the class pairs (tuple, tuple)
    and (NoneType, tuple) only.  For every other pair of shape classes the
    lookup finds nothing, the fallback is used and the shape check
    succeeds; two list shapes, equal or not, are such a pair. *)
Theorem shape_check_only_for_tuple_targets (source target : VarMetadata) :
  (get __shape_checks (ty_tuple, ty_tuple) = Some __check_shapes_match /\
   get __shape_checks (ty_NoneType, ty_tuple) = Some __check_val_and_shape_match) /\
  ((type_of (shape source), type_of (shape target)) <> (ty_tuple, ty_tuple) ->
   (type_of (shape source), type_of (shape target)) <> (ty_NoneType, ty_tuple) ->
   get __shape_checks (type_of (shape source), type_of (shape target)) = None /\
   check_shapes_match source target = Ok tt /\
   (type source = type target -> check_connection source target = Ok tt)) /\
  (forall a b, shape source = PyList a -> shape target = PyList b ->
   get __shape_checks (type_of (shape source), type_of (shape target)) = None /\
   check_shapes_match source target = Ok tt).
Proof.
  split; [split; reflexivity | split].
  - intros N1 N2. destruct (check_shapes_match_fallback _ _ N1 N2) as [G C].
    split; [exact G | split; [exact C|]].
    intros T. now rewrite (check_connection_same_type _ _ T).
  - intros a b Sa Sb. apply check_shapes_match_fallback; rewrite Sa, Sb; discriminate.
Qed.

Lemma shape_check_only_for_tuple_targets_witness :
  let source := {| path := "C1:y"; val := PyFloat 0; type := ty_float;
                   shape := PyList [3%Z] |} in
  let target := {| path := "C2:y"; val := PyFloat 0; type := ty_float;
                   shape := PyList [4%Z] |} in
  check_shapes_match source target = Ok tt.
Proof.
  cbv zeta.
  refine (proj2 (proj2 (proj2 (shape_check_only_for_tuple_targets
                                 {| path := "C1:y"; val := PyFloat 0; type := ty_float;
                                    shape := PyList [3%Z] |}
                                 {| path := "C2:y"; val := PyFloat 0; type := ty_float;
                                    shape := PyList [4%Z] |}))
                   [3%Z] [4%Z] eq_refl eq_refl)).
Defined.

(** ** Lookups of connection ends in the variable tables *)

Lemma bind_no_TypeError {A B : Type} (r : result A) (k : A -> result B) :
  ~ raises_TypeError r ->
  (forall a, r = Ok a -> ~ raises_TypeError (k a)) ->
  ~ raises_TypeError (bind r k).
Proof.
  intros Nr Nk. destruct r as [a|e]; simpl.
  - now apply Nk.
  - intros [msg E]. apply Nr. exists msg. congruence.
Qed.

Lemma get_present {V : Type} (d : dict string V) (k : string) :
  In k (keys d) -> exists v, get d k = Some v.
Proof.
  intros I. destruct (get d k) as [v|] eqn:E; [eauto|].
  apply get_None in E. tauto.
Qed.

Lemma check_connections_loop_no_TypeError (conns : list (string * string))
  (params unknowns : dict string Metadata) :
  (forall tgt src, In (tgt, src) conns ->
     In tgt (keys params) /\ In src (keys unknowns)) ->
  ~ raises_TypeError (check_connections_loop conns params unknowns).
Proof.
  induction conns as [|[tgt src] conns IH]; simpl; intros P.
  - intros [msg E]; discriminate.
  - destruct (P tgt src (or_introl eq_refl)) as [It Is].
    destruct (get_present _ _ It) as [mt ->], (get_present _ _ Is) as [ms ->].
    apply bind_no_TypeError; [apply make_var_metadata_present|]. intros source _.
    apply bind_no_TypeError; [apply make_var_metadata_present|]. intros target _.
    apply bind_no_TypeError; [apply check_connection_no_TypeError|]. intros _ _.
    apply IH. intros tgt' src' I. apply P. now right.
Qed.

(** C9: [make_var_metadata] raises [TypeError] on the [None] that
    [dict.get] returns for a path that is not in the table.  When every
    target is a key of the parameter table and every source a key of the
    unknown table, [check_connections] never raises [TypeError].  When the
    loop reaches a connection whose source is not in the unknown table, or
    whose target is not in the parameter table, it raises that [TypeError],
    not a [ConnectError]; and no mapping with such a connection passes. *)
Theorem check_connections_lookup (connections : dict string string)
  (params unknowns : dict string Metadata) :
  (forall p, make_var_metadata p None = Raise (TypeError subscript_None_msg)) /\
  ((forall tgt src, In (tgt, src) connections ->
      In tgt (keys params) /\ In src (keys unknowns)) ->
   ~ raises_TypeError (check_connections connections params unknowns)) /\
  (forall before after tgt src,
     connections = (before ++ (tgt, src) :: after)%list ->
     check_connections before params unknowns = Ok tt ->
     ~ In src (keys unknowns) ->
     get unknowns src = None /\
     check_connections connections params unknowns
     = Raise (TypeError subscript_None_msg)) /\
  (forall before after tgt src source,
     connections = (before ++ (tgt, src) :: after)%list ->
     check_connections before params unknowns = Ok tt ->
     make_var_metadata src (get unknowns src) = Ok source ->
     ~ In tgt (keys params) ->
     get params tgt = None /\
     check_connections connections params unknowns
     = Raise (TypeError subscript_None_msg)) /\
  ((exists tgt src, In (tgt, src) connections /\
      (~ In tgt (keys params) \/ ~ In src (keys unknowns))) ->
   check_connections connections params unknowns <> Ok tt).
Proof.
  split; [reflexivity | split; [|split; [|split]]].
  - apply check_connections_loop_no_TypeError.
  - intros before after tgt src -> B N. apply get_None in N.
    split; [exact N|]. unfold check_connections, items in *.
    rewrite (check_connections_loop_reach _ _ _ _ _ _ B), N. reflexivity.
  - intros before after tgt src source -> B Ms N. apply get_None in N.
    split; [exact N|]. unfold check_connections, items in *.
    rewrite (check_connections_loop_reach _ _ _ _ _ _ B), Ms, N. reflexivity.
  - intros (tgt & src & I & N) E.
    destruct (proj1 (check_connections_loop_Ok _ _ _) E tgt src I)
      as (source & target & Ms & Mt & _).
    apply make_var_metadata_Ok in Ms, Mt.
    destruct Ms as (ms & vs & Gs & _), Mt as (mt & vt & Gt & _).
    destruct N as [N|N]; apply get_None in N; congruence.
Qed.

Lemma check_connections_lookup_witness :
  check_connections [("C2:x", "C1:x")]
    [("C2:x", {| md_val := Some (PyFloat 0); md_shape := None |})] []
  = Raise (TypeError "'NoneType' object is not subscriptable").
Proof.
  refine (proj2 (proj1 (proj2 (proj2 (check_connections_lookup
            [("C2:x", "C1:x")]
            [("C2:x", {| md_val := Some (PyFloat 0); md_shape := None |})] [])))
            [] [] "C2:x" "C1:x" eq_refl eq_refl _)).
  simpl. tauto.
Defined.

(** *** The Python 2 reading

    With the eager [map] of Python 2 the metadata of all sources and targets
    is built before the first check.  The two readings accept the same
    inputs, and under the precondition on the tables neither raises
    [TypeError]. *)

Section Python2.
Variables params unknowns : dict string Metadata.

Lemma map_result_no_TypeError (table : dict string Metadata) (paths : list string) :
  (forall p, In p paths -> In p (keys table)) ->
  ~ raises_TypeError (map_result (fun p => make_var_metadata p (get table p)) paths).
Proof.
  induction paths as [|p paths IH]; simpl; intros P.
  - intros [msg E]; discriminate.
  - destruct (get_present _ _ (P p (or_introl eq_refl))) as [md ->].
    apply bind_no_TypeError; [apply make_var_metadata_present|]. intros m _.
    apply bind_no_TypeError; [apply IH; intros q I; apply P; now right|].
    intros ms _ [msg E]; discriminate.
Qed.

Lemma check_pairs_no_TypeError (pairs : list (VarMetadata * VarMetadata)) :
  ~ raises_TypeError (check_pairs pairs).
Proof.
  induction pairs as [|[source target] pairs IH]; simpl.
  - intros [msg E]; discriminate.
  - apply bind_no_TypeError; [apply check_connection_no_TypeError | auto].
Qed.

Lemma check_connections_py2_no_TypeError (connections : dict string string) :
  (forall tgt src, In (tgt, src) connections ->
     In tgt (keys params) /\ In src (keys unknowns)) ->
  ~ raises_TypeError (check_connections_py2 connections params unknowns).
Proof.
  intros P. unfold check_connections_py2.
  apply bind_no_TypeError.
  - apply map_result_no_TypeError. unfold values. intros src I.
    apply in_map_iff in I as ([t s] & <- & I). apply (P t s I).
  - intros sources _. apply bind_no_TypeError.
    + apply map_result_no_TypeError. unfold keys. intros tgt I.
      apply in_map_iff in I as ([t s] & <- & I). apply (P t s I).
    + intros targets _. apply check_pairs_no_TypeError.
Qed.

Lemma check_connections_py2_Ok (connections : dict string string) :
  check_connections_py2 connections params unknowns = Ok tt <->
  check_connections connections params unknowns = Ok tt.
Proof.
  unfold check_connections, check_connections_py2, items, values, keys.
  induction connections as [|[tgt src] conns IH]; simpl; [tauto|].
  destruct (make_var_metadata src (get unknowns src)) as [source|]; simpl;
    [|split; discriminate].
  destruct (make_var_metadata tgt (get params tgt)) as [target|]; simpl.
  - destruct (map_result _ (map snd conns)) as [sources|]; simpl in *.
    + destruct (map_result _ (map fst conns)) as [targets|]; simpl in *.
      * destruct (check_connection source target) as [[]|]; simpl;
          [exact IH | split; discriminate].
      * destruct (check_connection source target) as [[]|]; simpl;
          [exact IH | split; discriminate].
    + destruct (check_connection source target) as [[]|]; simpl;
        [exact IH | split; discriminate].
  - destruct (map_result _ (map snd conns)) as [sources|]; simpl;
      split; discriminate.
Qed.
End Python2.

(** ** Hanging parameters *)

Lemma repr_char_plain (c : ascii) :
  plain_char c = true -> repr_char squote c = String c EmptyString.
Proof.
  destruct c as [[] [] [] [] [] [] [] []]; intros E;
    solve [reflexivity | discriminate E].
Qed.

Lemma plain_char_not_squote (c : ascii) :
  plain_char c = true -> Ascii.eqb c squote = false.
Proof.
  unfold plain_char. destruct (Ascii.eqb c squote); [|reflexivity].
  rewrite andb_false_r. discriminate.
Qed.

Lemma repr_str_plain (s : string) :
  plain_str s = true -> repr_str s = String squote (s ++ String squote EmptyString).
Proof.
  intros P. unfold repr_str.
  assert (M : mem_char squote s = false).
  { induction s as [|c s IH]; simpl in *; [reflexivity|].
    apply andb_true_iff in P as [Pc Ps].
    now rewrite (plain_char_not_squote c Pc), IH. }
  rewrite M. simpl. f_equal. f_equal.
  induction s as [|c s IH]; simpl in *; [reflexivity|].
  apply andb_true_iff in P as [Pc Ps]. apply orb_false_iff in M as [_ M].
  now rewrite (repr_char_plain c Pc), IH.
Qed.

Lemma names_join (sep : string) (parts : list string) (x : string) :
  In x parts -> names (join sep parts) x.
Proof.
  unfold join. induction parts as [|y parts IH]; simpl; [tauto|].
  intros [->|I].
  - destruct parts; [apply names_refl | apply names_here].
  - destruct parts as [|z parts]; [destruct I|].
    apply names_later, names_later, IH, I.
Qed.

Lemma names_str_list_str (l : list string) (x : string) :
  In x l -> names (str_list_str l) (repr_str x).
Proof.
  intros I. unfold str_list_str. apply names_later, names_earlier, names_join.
  now apply in_map.
Qed.

Lemma names_repr_str_plain (x : string) : plain_str x = true -> names (repr_str x) x.
Proof.
  intros P. rewrite (repr_str_plain x P).
  exists (String squote EmptyString), (String squote EmptyString). reflexivity.
Qed.

Lemma hanging_params_In {V : Type} (params_dict : dict string V)
  (connections : dict string string) (p : string) :
  In p (hanging_params params_dict connections) <->
  In p (keys params_dict) /\ ~ In p (keys connections).
Proof.
  unfold hanging_params. rewrite filter_In, negb_true_iff, contains_false. tauto.
Qed.

(** C6: the check fails exactly when some parameter is not a key of the
    connections; the error is a [RuntimeError] whose message lists the
    hanging parameters, all of them and nothing else, each written as
    [repr] writes a string (between quotes, and as it is when it has no
    quote, backslash or unprintable character).  Parameters p1, p2, p3
    with connections for p1 and p3 fail with a message listing p2 only. *)
Theorem check_hanging_params_complete {V : Type} (params_dict : dict string V)
  (connections : dict string string) :
  ((exists e, check_hanging_params params_dict connections = Raise e) <->
   (exists p, In p (keys params_dict) /\ ~ In p (keys connections))) /\
  (check_hanging_params params_dict connections = Ok tt <->
   hanging_params params_dict connections = []) /\
  (forall e, check_hanging_params params_dict connections = Raise e ->
     let hanging := hanging_params params_dict connections in
     let msg := "Parameters " ++ str_list_str hanging ++ " have no associated unknowns." in
     e = RuntimeError msg /\
     (forall p, In p hanging <-> In p (keys params_dict) /\ ~ In p (keys connections)) /\
     (forall p, In p (keys params_dict) -> ~ In p (keys connections) ->
        names msg (repr_str p) /\ (plain_str p = true -> names msg p))) /\
  check_hanging_params [("p1", tt); ("p2", tt); ("p3", tt)] [("p1", "u1"); ("p3", "u3")]
  = Raise (RuntimeError "Parameters ['p2'] have no associated unknowns.").
Proof.
  split; [|split; [|split; [|reflexivity]]].
  - unfold check_hanging_params.
    destruct (hanging_params params_dict connections) as [|p l] eqn:H.
    + split; [intros [e E]; discriminate|].
      intros (p & I). apply hanging_params_In in I. rewrite H in I. destruct I.
    + split; [intros _ | eauto].
      exists p. apply hanging_params_In. rewrite H. now left.
  - unfold check_hanging_params.
    destruct (hanging_params params_dict connections); split; congruence.
  - intros e E hanging msg.
    assert (Em : e = RuntimeError msg).
    { subst hanging msg. unfold check_hanging_params, hanging_msg in E.
      destruct (hanging_params params_dict connections); congruence. }
    split; [exact Em | split].
    + intros p. apply hanging_params_In.
    + intros p Ip Np.
      assert (Nr : names msg (repr_str p)).
      { subst msg. apply names_later, names_earlier, names_str_list_str.
        now apply hanging_params_In. }
      split; [exact Nr|]. intros P.
      eapply names_trans; [exact Nr | now apply names_repr_str_plain].
Qed.

Lemma check_hanging_params_complete_witness :
  exists e,
    check_hanging_params
      [("C1:a", tt); ("C2:b", tt); ("C3:c", tt)] [("C2:b", "C1:y")] = Raise e.
Proof.
  apply (proj1 (check_hanging_params_complete
                  [("C1:a", tt); ("C2:b", tt); ("C3:c", tt)] [("C2:b", "C1:y")])).
  exists "C3:c". simpl. split; [tauto|]. intros [E|[]]. discriminate E.
Defined.

(** ** Ownership of parameters *)

Section DictUpdates.
Context {K V : Type} `{Key K}.
Implicit Types (d : dict K V) (k : K) (v : V).

Lemma get_setitem_same d k v : get (setitem d k v) k = Some v.
Proof.
  induction d as [|[k' v'] d IH]; simpl.
  - now rewrite key_eqb_refl.
  - destruct (key_eqb_spec k' k) as [->|N]; simpl.
    + now rewrite key_eqb_refl.
    + now rewrite key_eqb_neq.
Qed.

Lemma get_setitem_other d k k' v : k <> k' -> get (setitem d k v) k' = get d k'.
Proof.
  intros N. induction d as [|[k0 v0] d IH]; simpl.
  - now rewrite key_eqb_neq.
  - destruct (key_eqb_spec k0 k) as [->|N0]; simpl.
    + now rewrite key_eqb_neq.
    + now rewrite IH.
Qed.

Lemma keys_setitem d k v :
  keys (setitem d k v) = if contains d k then keys d else (keys d ++ [k])%list.
Proof.
  unfold contains. induction d as [|[k' v'] d IH]; simpl; [reflexivity|].
  destruct (key_eqb_spec k' k) as [->|N]; simpl; [reflexivity|].
  rewrite IH. now destruct (get d k).
Qed.

Lemma well_formed_setitem d k v : well_formed d -> well_formed (setitem d k v).
Proof.
  unfold well_formed. intros WF. rewrite keys_setitem.
  destruct (contains d k) eqn:C; [exact WF|].
  apply contains_false in C.
  apply NoDup_rev in WF. rewrite <- (rev_involutive (keys d ++ [k])%list).
  apply NoDup_rev. rewrite rev_app_distr. simpl. constructor; [|exact WF].
  now rewrite <- in_rev.
Qed.
End DictUpdates.

Lemma is_prefix_length {A : Type} (l m : list A) :
  is_prefix l m -> (length l <= length m)%nat.
Proof. intros [rest ->]. rewrite length_app. lia. Qed.

Lemma common_parts_loop_prefix (ps us : list string) :
  is_prefix (common_parts_loop (combine ps us)) ps /\
  is_prefix (common_parts_loop (combine ps us)) us.
Proof.
  revert us. induction ps as [|p ps IH]; intros [|u us]; simpl;
    try (split; eexists; reflexivity).
  destruct (String.eqb_spec p u) as [->|N].
  - destruct (IH us) as [[rp Ep] [ru Eu]].
    split; [exists rp | exists ru]; simpl; congruence.
  - split; eexists; reflexivity.
Qed.

Lemma common_parts_loop_maximal (ps us l : list string) :
  is_prefix l ps -> is_prefix l us ->
  is_prefix l (common_parts_loop (combine ps us)).
Proof.
  revert ps us. induction l as [|x l IH]; intros ps us [rp Ep] [ru Eu].
  - eexists; reflexivity.
  - subst ps us. simpl. rewrite String.eqb_refl.
    destruct (IH (l ++ rp)%list (l ++ ru)%list) as [rest E];
      try (eexists; reflexivity).
    exists rest. simpl. congruence.
Qed.

(** The loop stops because one of the two lists is used up or because the
    next two parts differ. *)
Lemma common_parts_loop_stop (ps us : list string) :
  common_parts_loop (combine ps us) = ps \/
  common_parts_loop (combine ps us) = us \/
  exists p u rp ru,
    ps = (common_parts_loop (combine ps us) ++ p :: rp)%list /\
    us = (common_parts_loop (combine ps us) ++ u :: ru)%list /\
    p <> u.
Proof.
  revert us. induction ps as [|p ps IH]; intros [|u us]; simpl; auto.
  destruct (String.eqb_spec p u) as [->|N].
  - destruct (IH us) as [E|[E|(p' & u' & rp & ru & Ep & Eu & N)]].
    + left. congruence.
    + right; left. congruence.
    + right; right. exists p', u', rp, ru. simpl.
      split; [congruence | split; [congruence | exact N]].
  - right; right. exists p, u, ps, us. auto.
Qed.

Lemma common_parts_longest (par unk : string) :
  longest_common_prefix (common_parts par unk) (split ":" par) (split ":" unk).
Proof.
  unfold common_parts.
  destruct (common_parts_loop_prefix (split ":" par) (split ":" unk)) as [Pp Pu].
  split; [exact Pp | split; [exact Pu|]].
  intros l' Lp Lu. apply is_prefix_length. now apply common_parts_loop_maximal.
Qed.

Lemma owned_assign_step param_owners conn o :
  owned (assign_step param_owners conn) o
  = (owned param_owners o
     ++ if String.eqb (owner_of conn) o then [fst conn] else [])%list.
Proof.
  unfold owned, get_default, assign_step, setdefault_append.
  destruct (String.eqb_spec (owner_of conn) o) as [<-|N].
  - destruct (get param_owners (owner_of conn)); now rewrite get_setitem_same.
  - destruct (get param_owners (owner_of conn));
      rewrite get_setitem_other by exact N; now rewrite app_nil_r.
Qed.

Lemma keys_assign_step param_owners conn :
  keys (assign_step param_owners conn)
  = if contains param_owners (owner_of conn) then keys param_owners
    else (keys param_owners ++ [owner_of conn])%list.
Proof.
  unfold assign_step, setdefault_append, contains.
  destruct (get param_owners (owner_of conn)) eqn:G;
    rewrite keys_setitem; unfold contains; now rewrite G.
Qed.

Lemma owned_fold conns param_owners o :
  owned (fold_left assign_step conns param_owners) o
  = (owned param_owners o ++ targets_of o conns)%list.
Proof.
  revert param_owners. induction conns as [|conn conns IH]; intros param_owners; simpl.
  - unfold targets_of. simpl. now rewrite app_nil_r.
  - rewrite IH, owned_assign_step, <- app_assoc. f_equal.
    unfold targets_of. simpl. now destruct (String.eqb (owner_of conn) o).
Qed.

Lemma keys_fold conns param_owners o :
  In o (keys (fold_left assign_step conns param_owners)) <->
  In o (keys param_owners) \/ exists conn, In conn conns /\ owner_of conn = o.
Proof.
  revert param_owners. induction conns as [|conn conns IH]; intros param_owners; simpl.
  - split; [auto | intros [I|(c & [] & _)]; exact I].
  - rewrite IH, keys_assign_step.
    destruct (contains param_owners (owner_of conn)) eqn:C.
    + apply contains_In in C. split.
      * intros [I|(c & I & E)]; [auto | right; exists c; auto].
      * intros [I|(c & [<-|I] & E)]; [auto | left; congruence | right; exists c; auto].
    + rewrite in_app_iff. simpl. split.
      * intros [[I|[<-|[]]]|(c & I & E)]; [auto | right; exists conn; auto
                                          | right; exists c; auto].
      * intros [I|(c & [<-|I] & E)]; [auto | left; right; left; exact E
                                     | right; exists c; auto].
Qed.

Lemma well_formed_fold conns param_owners :
  well_formed param_owners -> well_formed (fold_left assign_step conns param_owners).
Proof.
  revert param_owners. induction conns as [|conn conns IH]; intros param_owners WF;
    simpl; [exact WF|].
  apply IH. unfold assign_step, setdefault_append.
  destruct (get param_owners (owner_of conn)); now apply well_formed_setitem.
Qed.

Lemma assign_parameters_fold connections :
  assign_parameters connections = fold_left assign_step (items connections) [].
Proof. reflexivity. Qed.

Lemma owned_assign_parameters connections o :
  owned (assign_parameters connections) o = targets_of o connections.
Proof. rewrite assign_parameters_fold. unfold items. now rewrite owned_fold. Qed.

Lemma keys_assign_parameters connections o :
  In o (keys (assign_parameters connections)) <->
  exists conn, In conn connections /\ owner_of conn = o.
Proof.
  rewrite assign_parameters_fold. unfold items. rewrite keys_fold. simpl. tauto.
Qed.

Lemma targets_of_In o conns par :
  In par (targets_of o conns) <->
  exists unk, In (par, unk) conns /\ owner par unk = o.
Proof.
  unfold targets_of. rewrite in_map_iff. split.
  - intros ([p u] & <- & I). apply filter_In in I as [I E].
    apply String.eqb_eq in E. exists u. auto.
  - intros (unk & I & E). exists (par, unk). split; [reflexivity|].
    apply filter_In. split; [exact I|]. now apply String.eqb_eq.
Qed.

Lemma Permutation_targets_of (o : string) (c1 c2 : list (string * string)) :
  Permutation c1 c2 -> Permutation (targets_of o c1) (targets_of o c2).
Proof.
  unfold targets_of. intros P. apply Permutation_map.
  induction P as [|x l l' P IH|x y l|l l' l'' P1 IH1 P2 IH2]; simpl.
  - constructor.
  - destruct (String.eqb (owner_of x) o); [now constructor | exact IH].
  - destruct (String.eqb (owner_of x) o), (String.eqb (owner_of y) o);
      try apply Permutation_refl. apply perm_swap.
  - now apply Permutation_trans with (filter (fun conn => String.eqb (owner_of conn) o) l').
Qed.

(** C3: [assign_parameters] lists the target of every connection under the
    owner that is the colon-join of the longest common prefix of the parts
    of the target and of the source: the parts are compared one by one and
    the comparison stops at the first pair that differs, or when one of the
    paths has no part left.  G1:C1:x with G1:C2:y gives G1, G1:C1:x with
    G1:C1:z gives G1:C1, A:x with B:y gives the empty path, and A:B:X with
    A:C:X gives A, the equal last parts playing no role. *)
Theorem owner_longest_common_prefix (connections : dict string string)
  (par unk : string) :
  In (par, unk) connections ->
  (exists targets,
      get (assign_parameters connections) (owner par unk) = Some targets /\
      In par targets) /\
  (well_formed connections ->
   forall o, In par (owned (assign_parameters connections) o) -> o = owner par unk) /\
  owner par unk = join ":" (common_parts par unk) /\
  longest_common_prefix (common_parts par unk) (split ":" par) (split ":" unk) /\
  (common_parts par unk = split ":" par \/
   common_parts par unk = split ":" unk \/
   exists ppart upart prest urest,
     split ":" par = (common_parts par unk ++ ppart :: prest)%list /\
     split ":" unk = (common_parts par unk ++ upart :: urest)%list /\
     ppart <> upart) /\
  owner "G1:C1:x" "G1:C2:y" = "G1" /\
  owner "G1:C1:x" "G1:C1:z" = "G1:C1" /\
  owner "A:x" "B:y" = "" /\
  owner "A:B:X" "A:C:X" = "A".
Proof.
  intros I.
  split; [|split; [|split; [reflexivity | split; [apply common_parts_longest|]]]].
  - assert (T : In par (owned (assign_parameters connections) (owner par unk))).
    { rewrite owned_assign_parameters. apply targets_of_In. eauto. }
    unfold owned, get_default in T.
    destruct (get (assign_parameters connections) (owner par unk)) as [targets|];
      [eauto | destruct T].
  - intros WF o T. rewrite owned_assign_parameters in T.
    apply targets_of_In in T as (unk' & I' & <-).
    apply (In_get _ _ _ WF) in I, I'. congruence.
  - split; [apply common_parts_loop_stop | repeat split].
Qed.

Lemma owner_longest_common_prefix_witness :
  exists targets,
    get (assign_parameters [("G1:C1:x", "G1:C2:y"); ("G1:C2:a", "G1:C2:y")])
        (owner "G1:C2:a" "G1:C2:y") = Some targets /\
    In "G1:C2:a" targets.
Proof.
  apply (owner_longest_common_prefix
           [("G1:C1:x", "G1:C2:y"); ("G1:C2:a", "G1:C2:y")] "G1:C2:a" "G1:C2:y").
  simpl. tauto.
Defined.

(** C8: two connection mappings with the same pairs in different iteration
    orders get the same owners, and each owner the same targets: the owner
    keys of the two results are permutations of each other, and so are, for
    every owner, its two lists of targets. *)
Theorem assign_parameters_order_independent (connections1 connections2 : dict string string) :
  Permutation (items connections1) (items connections2) ->
  (forall o, In o (keys (assign_parameters connections1)) <->
             In o (keys (assign_parameters connections2))) /\
  Permutation (keys (assign_parameters connections1))
              (keys (assign_parameters connections2)) /\
  (forall o, Permutation (owned (assign_parameters connections1) o)
                         (owned (assign_parameters connections2) o)) /\
  (forall o t, In t (owned (assign_parameters connections1) o) <->
               In t (owned (assign_parameters connections2) o)).
Proof.
  unfold items. intros P.
  assert (Keys : forall o, In o (keys (assign_parameters connections1)) <->
                           In o (keys (assign_parameters connections2))).
  { intros o. rewrite !keys_assign_parameters. split; intros (conn & I & E);
      exists conn; split; try exact E.
    - now apply (Permutation_in _ P).
    - now apply (Permutation_in _ (Permutation_sym P)). }
  assert (Owned : forall o, Permutation (owned (assign_parameters connections1) o)
                                        (owned (assign_parameters connections2) o)).
  { intros o. rewrite !owned_assign_parameters. now apply Permutation_targets_of. }
  split; [exact Keys | split; [|split; [exact Owned|]]].
  - apply NoDup_Permutation; [| |exact Keys];
      rewrite assign_parameters_fold; apply well_formed_fold; constructor.
  - intros o t. split; apply Permutation_in;
      [apply Owned | apply Permutation_sym, Owned].
Qed.

Lemma assign_parameters_order_independent_witness :
  Permutation
    (owned (assign_parameters [("G1:C1:x", "G1:C2:y"); ("G1:C3:z", "G1:C2:y"); ("A:x", "B:y")]) "G1")
    (owned (assign_parameters [("A:x", "B:y"); ("G1:C3:z", "G1:C2:y"); ("G1:C1:x", "G1:C2:y")]) "G1").
Proof.
  apply (assign_parameters_order_independent
           [("G1:C1:x", "G1:C2:y"); ("G1:C3:z", "G1:C2:y"); ("A:x", "B:y")]
           [("A:x", "B:y"); ("G1:C3:z", "G1:C2:y"); ("G1:C1:x", "G1:C2:y")]).
  unfold items.
  apply Permutation_trans
    with [("G1:C3:z", "G1:C2:y"); ("G1:C1:x", "G1:C2:y"); ("A:x", "B:y")].
  - apply perm_swap.
  - apply Permutation_trans
      with [("G1:C3:z", "G1:C2:y"); ("A:x", "B:y"); ("G1:C1:x", "G1:C2:y")].
    + apply perm_skip, perm_swap.
    + apply perm_swap.
Defined.

(** The order of the targets of one owner does follow the iteration order
    of the connections. *)
Example assign_parameters_order_within_owner :
  assign_parameters [("G1:C1:x", "G1:C2:y"); ("G1:C3:z", "G1:C2:y")]
  = [("G1", ["G1:C1:x"; "G1:C3:z"])] /\
  assign_parameters [("G1:C3:z", "G1:C2:y"); ("G1:C1:x", "G1:C2:y")]
  = [("G1", ["G1:C3:z"; "G1:C1:x"])].
Proof. split; reflexivity. Qed.

(** ** The whole of [setup] *)


(** A parameter a of component C1 in group G, with shape (3,), explicitly
    connected to the unknown b of C2 in G, of the same kind and shape: the
    group G owns the transfer. *)
Example setup_end_to_end :
  setup [("G:C1:a", {| md_val := Some (PyFloat 0); md_shape := Some (PyTuple [3%Z]) |})]
        [("G:C2:b", {| md_val := Some (PyFloat 0); md_shape := Some (PyTuple [3%Z]) |})]
        [("G:C1:a", "G:C2:b")] []
  = Ok ([("G", ["G:C1:a"])], [("G:C1:a", "G:C2:b")]).
Proof. reflexivity. Qed.

(** * Further properties of the code *)

(** ** [calc_gradient] *)

Lemma py_eq_true (a b : pyobj) : py_eq a b = true <-> a = b.
Proof. destruct (py_eq_spec a b); split; congruence. Qed.

Lemma py_in_In (x : pyobj) (l : list pyobj) : py_in x l = true <-> In x l.
Proof.
  unfold py_in. rewrite existsb_exists. split.
  - intros (item & I & E). apply py_eq_true in E. now subst.
  - intros I. exists x. split; [exact I | now apply py_eq_true].
Qed.

Lemma py_in_modes (mode : pyobj) :
  py_in mode [PyStr "auto"; PyStr "fwd"; PyStr "rev"] = true <->
  mode = PyStr "auto" \/ mode = PyStr "fwd" \/ mode = PyStr "rev".
Proof. rewrite py_in_In. simpl. intuition congruence. Qed.

Lemma py_in_formats (return_format : pyobj) :
  py_in return_format [PyStr "array"; PyStr "dict"] = true <->
  return_format = PyStr "array" \/ return_format = PyStr "dict".
Proof. rewrite py_in_In. simpl. intuition congruence. Qed.

(** [calc_gradient] only checks its two keyword arguments and computes
    nothing: it returns [None] exactly when the mode is one of the strings
    auto, fwd, rev and the return format one of array, dict, each taken as
    its default (auto, array) when left out.  A bad mode is reported before
    a bad return format, and the parameter and unknown lists play no
    role. *)
Theorem calc_gradient_checks_arguments (params unknowns : list string)
  (mode return_format : option pyobj) :
  let m := arg_or (PyStr "auto") mode in
  let f := arg_or (PyStr "array") return_format in
  let mode_ok := m = PyStr "auto" \/ m = PyStr "fwd" \/ m = PyStr "rev" in
  let format_ok := f = PyStr "array" \/ f = PyStr "dict" in
  (forall v, calc_gradient params unknowns mode return_format = Returned v ->
     v = PyNone) /\
  (calc_gradient params unknowns mode return_format = Returned PyNone <->
   mode_ok /\ format_ok) /\
  (calc_gradient params unknowns mode return_format
   = ValueError "mode must be 'auto', 'fwd', or 'rev'" <-> ~ mode_ok) /\
  (calc_gradient params unknowns mode return_format
   = ValueError "return_format must be 'array' or 'dict'" <->
   mode_ok /\ ~ format_ok) /\
  (forall params' unknowns',
     calc_gradient params unknowns mode return_format
     = calc_gradient params' unknowns' mode return_format).
Proof.
  intros m f mode_ok format_ok. unfold calc_gradient. fold m f.
  pose proof (py_in_modes m) as Hm. pose proof (py_in_formats f) as Hf.
  fold mode_ok in Hm. fold format_ok in Hf.
  destruct (py_in m _); cbn [negb].
  - assert (Mok : mode_ok) by now apply Hm.
    destruct (py_in f _); cbn [negb].
    + assert (Fok : format_ok) by now apply Hf.
      repeat split; try tauto; try discriminate; congruence.
    + assert (Fno : ~ format_ok) by (rewrite <- Hf; discriminate).
      repeat split; try tauto; try discriminate; try congruence; intros; tauto.
  - assert (Mno : ~ mode_ok) by (rewrite <- Hm; discriminate).
    repeat split; try tauto; try discriminate; try congruence; intros; tauto.
Qed.

(** ** The metadata record and the outcome of one connection *)

(** [make_var_metadata] succeeds exactly on a table entry that has a value.
    The record it builds carries the path it was given, the value of the
    entry, the class of that value as its kind (so the kind of a record is
    always the class of its value) and the declared shape, [None] when the
    entry declares none.  A missing entry gives [TypeError], an entry
    without value [KeyError]. *)
Theorem make_var_metadata_record (p : string) (metadata : option Metadata) :
  (forall m, make_var_metadata p metadata = Ok m <->
     exists md v, metadata = Some md /\ md_val md = Some v /\
       m = {| path := p; val := v; type := type_of_val v; shape := get_shape md |}) /\
  (forall m, make_var_metadata p metadata = Ok m ->
     path m = p /\ type m = type_of_val (val m) /\
     (forall md, metadata = Some md -> md_shape md = None -> shape m = PyNone)) /\
  (raises_TypeError (make_var_metadata p metadata) <-> metadata = None) /\
  ((exists msg, make_var_metadata p metadata = Raise (KeyError msg)) <->
   exists md, metadata = Some md /\ md_val md = None).
Proof.
  split; [|split; [|split]].
  - intros m. split; [apply make_var_metadata_Ok|].
    intros (md & v & -> & V & ->). simpl. unfold getitem_val. now rewrite V.
  - intros m E. apply make_var_metadata_Ok in E as (md & v & -> & V & ->). simpl.
    split; [reflexivity | split; [reflexivity|]].
    intros md' [= <-] S. unfold get_shape. now rewrite S.
  - split.
    + destruct metadata as [md|]; [|reflexivity].
      intros R. now apply make_var_metadata_present in R.
    + intros ->. eexists; reflexivity.
  - destruct metadata as [md|]; simpl.
    + unfold getitem_val. destruct (md_val md) as [v|] eqn:V; simpl.
      * split; [intros [msg E]; discriminate | intros (md' & [= <-] & V'); congruence].
      * split; [eauto | eexists; reflexivity].
    + split; [intros [msg E]; discriminate | intros (md & E & _); discriminate].
Qed.

Ltac outcome_solve :=
  repeat split; intros;
  repeat match goal with
         | H : exists _, _ |- _ => destruct H
         | H : _ /\ _ |- _ => destruct H
         | H : _ \/ _ |- _ => destruct H
         | H : Raise _ = Raise ?e |- _ => is_var e; injection H as H; subst e
         end;
  try tauto; try discriminate; try congruence; eauto 6.

(** The checks of one connection end in one of three ways, each decided by
    the kinds, the two shapes and the dimensions of the source value:
    success; [ConnectError], for differing kinds, differing tuple shapes,
    or a source value whose dimensions differ from the tuple shape of the
    target; [AttributeError], for equal kinds, no source shape, a tuple as
    target shape and a source value without dimensions.  No other
    exception comes out of them. *)
Theorem check_connection_outcome (source target : VarMetadata) :
  (check_connection source target = Ok tt <->
   type source = type target /\
   match shape source, shape target with
   | PyTuple a, PyTuple b => a = b
   | PyNone, PyTuple b => runtime_dims (val source) = Some b
   | _, _ => True
   end) /\
  (raises_ConnectError (check_connection source target) <->
   type source <> type target \/
   match shape source, shape target with
   | PyTuple a, PyTuple b => a <> b
   | PyNone, PyTuple b =>
       exists dims, runtime_dims (val source) = Some dims /\ dims <> b
   | _, _ => False
   end) /\
  ((exists msg, check_connection source target = Raise (AttributeError msg)) <->
   type source = type target /\ shape source = PyNone /\
   (exists b, shape target = PyTuple b) /\ runtime_dims (val source) = None) /\
  (forall e, check_connection source target = Raise e ->
     exists msg, e = ConnectError msg \/ e = AttributeError msg).
Proof.
  unfold check_connection, check_types_match, raises_ConnectError.
  destruct (pytype_eqb_spec (type source) (type target)) as [T|T]; cbn [negb bind].
  - unfold check_shapes_match.
    destruct (shape source) as [|m|s|a|a] eqn:Ss, (shape target) as [|n|t|b|b] eqn:St;
      cbn; try solve [outcome_solve].
    + unfold __check_val_and_shape_match, runtime_dims. rewrite St.
      destruct (val source) as [o| |dims]; simpl; try solve [outcome_solve].
      unfold py_ne; simpl. destruct (list_Z_eqb_spec dims b); simpl; outcome_solve.
    + unfold __check_shapes_match. rewrite Ss, St.
      unfold py_ne; simpl. destruct (list_Z_eqb_spec a b); simpl; outcome_solve.
  - outcome_solve.
Qed.

(** A shape error names both ends and both shapes: the message of the
    [ConnectError] for two differing tuple shapes holds the two paths and
    the text of the two tuples, and the one for a source value whose
    dimensions differ from the target shape holds the two paths, the text
    of the dimensions of the value and that of the target shape. *)
Theorem shape_error_names_shapes (source target : VarMetadata) :
  type source = type target ->
  (forall a b, shape source = PyTuple a -> shape target = PyTuple b -> a <> b ->
     exists msg,
       check_connection source target = Raise (ConnectError msg) /\
       names msg (path source) /\ names msg (path target) /\
       names msg (py_str (PyTuple a)) /\ names msg (py_str (PyTuple b))) /\
  (forall dims b, shape source = PyNone -> shape target = PyTuple b ->
     val source = Ndarray dims -> dims <> b ->
     exists msg,
       check_connection source target = Raise (ConnectError msg) /\
       names msg (path source) /\ names msg (path target) /\
       names msg (py_str (PyTuple dims)) /\ names msg (py_str (PyTuple b))).
Proof.
  intros T. rewrite (check_connection_same_type _ _ T). split.
  - intros a b Sa Sb N. rewrite (check_shapes_match_tuples _ _ a b Sa Sb).
    unfold __check_shapes_match. rewrite Sa, Sb.
    rewrite (proj2 (py_ne_tuples a b) N).
    eexists. split; [reflexivity|]. unfold shape_mismatch_msg. rewrite Sa, Sb.
    repeat split; find_name.
  - intros dims b Sa Sb V N. rewrite (check_shapes_match_none_tuple _ _ b Sa Sb).
    unfold __check_val_and_shape_match. rewrite V, Sb. simpl.
    rewrite (proj2 (py_ne_tuples dims b) N).
    eexists. split; [reflexivity|]. unfold val_shape_mismatch_msg. rewrite Sb.
    repeat split; find_name.
Qed.

Lemma shape_error_names_shapes_witness :
  exists msg,
    check_connection
      {| path := "C1:y"; val := Ndarray [2%Z; 3%Z]; type := ty_ndarray; shape := PyNone |}
      {| path := "C2:y"; val := Ndarray [2%Z; 2%Z]; type := ty_ndarray;
         shape := PyTuple [2%Z; 2%Z] |}
    = Raise (ConnectError msg) /\
    names msg "(2, 3)" /\ names msg "(2, 2)".
Proof.
  destruct (proj2 (shape_error_names_shapes
                     {| path := "C1:y"; val := Ndarray [2%Z; 3%Z]; type := ty_ndarray;
                        shape := PyNone |}
                     {| path := "C2:y"; val := Ndarray [2%Z; 2%Z]; type := ty_ndarray;
                        shape := PyTuple [2%Z; 2%Z] |} eq_refl)
                  [2%Z; 3%Z] [2%Z; 2%Z] eq_refl eq_refl eq_refl)
    as (msg & E & _ & _ & Nd & Nb).
  - discriminate.
  - exists msg. split; [exact E | split; [exact Nd | exact Nb]].
Defined.

(** ** Validation of a whole mapping *)


Section ValidationFacts.
Variables params unknowns : dict string Metadata.


Lemma check_connections_cons (tgt src : string) (rest : list (string * string)) :
  check_connections ((tgt, src) :: rest) params unknowns
  = (check_connections [(tgt, src)] params unknowns ;;;
     check_connections rest params unknowns).
Proof.
  change ((tgt, src) :: rest) with ([(tgt, src)] ++ rest)%list.
  unfold check_connections, items. apply check_connections_loop_app.
Qed.

Lemma check_connections_failure_split (conns : list (string * string)) (e : exn) :
  check_connections conns params unknowns = Raise e ->
  exists before tgt src after,
    conns = (before ++ (tgt, src) :: after)%list /\
    check_connections before params unknowns = Ok tt /\
    check_connections [(tgt, src)] params unknowns = Raise e.
Proof.
  induction conns as [|[tgt src] conns IH]; [discriminate|].
  rewrite check_connections_cons.
  destruct (check_connections [(tgt, src)] params unknowns) as [[]|e'] eqn:E1; simpl.
  - intros E. destruct (IH E) as (before & t & s & after & -> & B & F).
    exists ((tgt, src) :: before), t, s, after. split; [reflexivity|].
    split; [|exact F]. rewrite check_connections_cons, E1. exact B.
  - intros [= ->]. exists [], tgt, src, conns. auto.
Qed.

End ValidationFacts.

(** Validation stops at the first connection that fails: the error of a
    mapping is the error of one of its connections checked alone, all the
    connections before it passing; and a mapping of two parts is checked
    part after part. *)
Theorem check_connections_first_failure (params unknowns : dict string Metadata)
  (connections : dict string string) :
  (forall e, check_connections connections params unknowns = Raise e <->
     exists before tgt src after,
       connections = (before ++ (tgt, src) :: after)%list /\
       check_connections before params unknowns = Ok tt /\
       check_connections [(tgt, src)] params unknowns = Raise e) /\
  (forall first second, connections = (first ++ second)%list ->
     check_connections connections params unknowns
     = (check_connections first params unknowns ;;;
        check_connections second params unknowns)).
Proof.
  split.
  - intros e. split; [apply check_connections_failure_split|].
    intros (before & tgt & src & after & -> & B & F).
    unfold check_connections, items in *.
    rewrite check_connections_loop_app, B. cbn [bind].
    change ((tgt, src) :: after) with ([(tgt, src)] ++ after)%list.
    now rewrite check_connections_loop_app, F.
  - intros first second ->. unfold check_connections, items.
    apply check_connections_loop_app.
Qed.

(** Whether validation passes does not depend on the iteration order of
    the connections (which error is raised does). *)
Theorem check_connections_order_independent (params unknowns : dict string Metadata)
  (connections1 connections2 : dict string string) :
  Permutation (items connections1) (items connections2) ->
  (check_connections connections1 params unknowns = Ok tt <->
   check_connections connections2 params unknowns = Ok tt).
Proof.
  unfold check_connections, items. intros P.
  rewrite !check_connections_loop_Ok.
  split; intros A tgt src I; apply A.
  - now apply (Permutation_in _ (Permutation_sym P)).
  - now apply (Permutation_in _ P).
Qed.

Lemma check_connections_order_independent_witness :
  check_connections [("C2:x", "C1:x"); ("C3:y", "C1:y")]
    [("C2:x", {| md_val := Some (PyFloat 0); md_shape := None |});
     ("C3:y", {| md_val := Some (Ndarray [2%Z]); md_shape := Some (PyTuple [2%Z]) |})]
    [("C1:x", {| md_val := Some (PyFloat 1); md_shape := None |});
     ("C1:y", {| md_val := Some (Ndarray [2%Z]); md_shape := None |})]
  = Ok tt <->
  check_connections [("C3:y", "C1:y"); ("C2:x", "C1:x")]
    [("C2:x", {| md_val := Some (PyFloat 0); md_shape := None |});
     ("C3:y", {| md_val := Some (Ndarray [2%Z]); md_shape := Some (PyTuple [2%Z]) |})]
    [("C1:x", {| md_val := Some (PyFloat 1); md_shape := None |});
     ("C1:y", {| md_val := Some (Ndarray [2%Z]); md_shape := None |})]
  = Ok tt.
Proof.
  apply check_connections_order_independent. unfold items. apply perm_swap.
Defined.

(** Validation reads the two tables at the ends of the connections only:
    tables that agree there give the same result, whatever else they
    hold. *)
Theorem check_connections_reads_ends_only
  (params params' unknowns unknowns' : dict string Metadata)
  (connections : dict string string) :
  (forall tgt src, In (tgt, src) connections ->
     get params tgt = get params' tgt /\ get unknowns src = get unknowns' src) ->
  check_connections connections params unknowns
  = check_connections connections params' unknowns'.
Proof.
  unfold check_connections, items.
  induction connections as [|[tgt src] conns IH]; simpl; intros A; [reflexivity|].
  destruct (A tgt src (or_introl eq_refl)) as [-> ->].
  rewrite IH; [reflexivity|]. intros t s I. apply A. now right.
Qed.

Lemma check_connections_reads_ends_only_witness :
  check_connections [("C2:x", "C1:x")]
    [("C2:x", {| md_val := Some (PyFloat 0); md_shape := None |})]
    [("C1:x", {| md_val := Some (PyFloat 1); md_shape := None |})]
  = check_connections [("C2:x", "C1:x")]
      [("C9:z", {| md_val := None; md_shape := None |});
       ("C2:x", {| md_val := Some (PyFloat 0); md_shape := None |})]
      [("C1:x", {| md_val := Some (PyFloat 1); md_shape := None |});
       ("C1:w", {| md_val := Some (Plain PyNone); md_shape := Some (PyInt 3) |})].
Proof.
  apply check_connections_reads_ends_only.
  intros tgt src [[= <- <-]|[]]. split; reflexivity.
Defined.

(** ** Outcomes of the reconciliation *)

Lemma shared_or_disjoint (connections implicit_conns : dict string string) :
  disjoint_keys connections implicit_conns \/
  exists t, In t (keys connections) /\ contains implicit_conns t = true.
Proof.
  unfold disjoint_keys.
  induction connections as [|[k v] conns IH]; simpl.
  - left. tauto.
  - destruct (contains implicit_conns k) eqn:C.
    + right. exists k. auto.
    + destruct IH as [D|(t & I & Ct)].
      * left. intros k' [<-|I]; [now apply contains_false | auto].
      * right. exists t. auto.
Qed.

Lemma reconcile_Raise (connections implicit_conns : dict string string) (e : exn) :
  reconcile connections implicit_conns = Raise e ->
  exists t explicit_src implicit_src,
    first_shared_key connections implicit_conns t /\
    get connections t = Some explicit_src /\
    get implicit_conns t = Some implicit_src /\
    e = RuntimeError (conflict_msg t explicit_src implicit_src).
Proof.
  intros E.
  destruct (shared_or_disjoint connections implicit_conns) as [D|(t & I & C)].
  - unfold reconcile, check_conflicts, items in E.
    rewrite check_conflicts_loop_none in E; [discriminate|].
    intros k Ik. apply contains_false. now apply D.
  - destruct (shared_key_split implicit_conns connections t I C) as (t' & F).
    destruct (check_conflicts_first_shared connections implicit_conns t' F)
      as (x & y & Gx & Gy & Ec).
    exists t', x, y. split; [exact F | split; [exact Gx | split; [exact Gy|]]].
    rewrite (reconcile_first_shared _ _ _ _ _ F Gx Gy) in E. congruence.
Qed.

Lemma reconcile_Ok (connections implicit_conns merged : dict string string) :
  reconcile connections implicit_conns = Ok merged <->
  disjoint_keys connections implicit_conns /\
  merged = update connections implicit_conns.
Proof.
  split.
  - intros E. destruct (shared_or_disjoint connections implicit_conns)
      as [D|(t & I & C)].
    + split; [exact D|]. unfold reconcile, check_conflicts, items in E.
      rewrite check_conflicts_loop_none in E.
      * simpl in E. congruence.
      * intros k Ik. apply contains_false. now apply D.
    + destruct (shared_key_split implicit_conns connections t I C) as (t' & F).
      destruct (check_conflicts_first_shared connections implicit_conns t' F)
        as (x & y & Gx & Gy & Ec).
      rewrite (reconcile_first_shared _ _ _ _ _ F Gx Gy) in E. discriminate.
  - intros [D ->]. unfold reconcile, check_conflicts, items.
    rewrite check_conflicts_loop_none; [reflexivity|].
    intros k Ik. apply contains_false. now apply D.
Qed.

(** Reconciliation succeeds exactly when no explicit target is a key of the
    implicit mapping, and then returns the explicit mapping updated with
    the implicit one.  It fails exactly with the [RuntimeError] about the
    first shared target and its two sources; the subscripts that build the
    message never raise [KeyError]. *)
Theorem reconcile_outcome (explicit implicit : dict string string) :
  (forall merged, reconcile explicit implicit = Ok merged <->
     (forall k, In k (keys explicit) -> ~ In k (keys implicit)) /\
     merged = update explicit implicit) /\
  (forall e, reconcile explicit implicit = Raise e <->
     exists t explicit_src implicit_src,
       first_shared_key explicit implicit t /\
       get explicit t = Some explicit_src /\
       get implicit t = Some implicit_src /\
       e = RuntimeError (conflict_msg t explicit_src implicit_src)) /\
  (forall e, reconcile explicit implicit = Raise e -> is_RuntimeError e = true).
Proof.
  split; [|split].
  - intros merged. apply reconcile_Ok.
  - intros e. split; [apply reconcile_Raise|].
    intros (t & x & y & F & Gx & Gy & ->). now apply reconcile_first_shared.
  - intros e E. apply reconcile_Raise in E as (t & x & y & _ & _ & _ & ->).
    reflexivity.
Qed.

Lemma well_formed_app {V : Type} (d d' : dict string V) :
  well_formed d -> well_formed d' ->
  (forall k, In k (keys d) -> ~ In k (keys d')) ->
  well_formed (d ++ d')%list.
Proof.
  unfold well_formed. intros W W' D. rewrite keys_app. now apply NoDup_app.
Qed.

(** Reconciliation keeps the invariant of a dict: from two mappings
    without repeated keys it returns one without repeated keys, whose keys
    are those of the explicit mapping followed by those of the implicit
    one. *)
Theorem reconcile_well_formed (explicit implicit merged : dict string string) :
  well_formed explicit -> well_formed implicit ->
  reconcile explicit implicit = Ok merged ->
  well_formed merged /\
  keys merged = (keys explicit ++ keys implicit)%list /\
  (forall k, In k (keys merged) <-> In k (keys explicit) \/ In k (keys implicit)).
Proof.
  intros We Wi E. apply reconcile_Ok in E as [D ->].
  rewrite (update_disjoint _ _ Wi D).
  split; [now apply well_formed_app | split; [apply keys_app|]].
  intros k. rewrite keys_app. apply in_app_iff.
Qed.

Lemma reconcile_well_formed_witness :
  well_formed [("C2:x", "C1:x"); ("C3:y", "C1:y"); ("C4:z", "C1:z")].
Proof.
  apply (reconcile_well_formed [("C2:x", "C1:x")] [("C3:y", "C1:y"); ("C4:z", "C1:z")]).
  - unfold well_formed; simpl. repeat constructor; simpl; intuition discriminate.
  - unfold well_formed; simpl. repeat constructor; simpl; intuition discriminate.
  - reflexivity.
Defined.

(** The order of the two mappings does not matter for the outcome: swapped,
    reconciliation succeeds in the same cases, and the two results hold
    the same connections (one is a permutation of the other, and every
    lookup agrees). *)
Theorem reconcile_symmetric (explicit implicit : dict string string) :
  well_formed explicit -> well_formed implicit ->
  ((exists merged, reconcile explicit implicit = Ok merged) <->
   (exists merged, reconcile implicit explicit = Ok merged)) /\
  (forall merged merged',
     reconcile explicit implicit = Ok merged ->
     reconcile implicit explicit = Ok merged' ->
     Permutation merged merged' /\ forall k, get merged k = get merged' k).
Proof.
  intros We Wi. split.
  - split; intros [m E]; apply reconcile_Ok in E as [D _]; eexists;
      apply reconcile_Ok; (split; [|reflexivity]); intros k I I'; exact (D k I' I).
  - intros m m' E E'. apply reconcile_Ok in E as [D ->], E' as [D' ->].
    rewrite (update_disjoint _ _ Wi D), (update_disjoint _ _ We D').
    split; [apply Permutation_app_comm|].
    intros k. rewrite !get_app.
    destruct (get explicit k) as [v|] eqn:Ge, (get implicit k) as [v'|] eqn:Gi;
      try reflexivity.
    exfalso. apply get_In in Ge, Gi.
    apply (D k); [apply (in_map fst) in Ge | apply (in_map fst) in Gi]; assumption.
Qed.

Lemma reconcile_symmetric_witness :
  (exists merged, reconcile [("C2:x", "C1:x")] [("C3:y", "C1:y")] = Ok merged) <->
  (exists merged, reconcile [("C3:y", "C1:y")] [("C2:x", "C1:x")] = Ok merged).
Proof.
  apply (reconcile_symmetric [("C2:x", "C1:x")] [("C3:y", "C1:y")]);
    unfold well_formed; simpl; repeat constructor; simpl; intuition discriminate.
Defined.

(** An empty mapping on either side changes nothing: without implicit
    connections the result is the explicit mapping, without explicit ones
    it is the implicit mapping. *)
Theorem reconcile_empty (connections : dict string string) :
  reconcile connections [] = Ok connections /\
  (well_formed connections -> reconcile [] connections = Ok connections).
Proof.
  split.
  - apply reconcile_Ok. split; [intros k _ []|reflexivity].
  - intros W. apply reconcile_Ok. split; [intros k []|].
    now rewrite (update_disjoint [] connections W) by (intros k []).
Qed.

(** ** Paths and their owners *)

Lemma split_not_nil (sep : ascii) (s : string) : split sep s <> [].
Proof.
  destruct s as [|c s]; simpl; [discriminate|].
  destruct (Ascii.eqb c sep); [discriminate|].
  destruct (split sep s); discriminate.
Qed.

(** Joining the parts of a path gives the path back. *)
Lemma join_split (sep : ascii) (s : string) :
  join (String sep EmptyString) (split sep s) = s.
Proof.
  unfold join. induction s as [|c s IH]; simpl; [reflexivity|].
  destruct (Ascii.eqb_spec c sep) as [->|N].
  - destruct (split sep s) as [|h t] eqn:E; [now apply split_not_nil in E|].
    simpl in *. now rewrite IH.
  - destruct (split sep s) as [|h t] eqn:E; [now apply split_not_nil in E|].
    simpl in *. destruct t; simpl in *; now rewrite <- IH.
Qed.

Lemma join_app (sep : string) (l1 l2 : list string) :
  l1 <> [] -> l2 <> [] ->
  join sep (l1 ++ l2)%list = join sep l1 ++ sep ++ join sep l2.
Proof.
  unfold join. induction l1 as [|x l1 IH]; intros N1 N2; [congruence|].
  destruct l1 as [|y l1].
  - simpl. destruct l2; [congruence | reflexivity].
  - change (String.concat sep ((x :: y :: l1) ++ l2)%list)
      with (x ++ sep ++ String.concat sep ((y :: l1) ++ l2)%list).
    rewrite IH by (congruence || assumption).
    change (String.concat sep (x :: y :: l1))
      with (x ++ sep ++ String.concat sep (y :: l1)).
    now rewrite !append_assoc.
Qed.

Lemma split_app (sep : ascii) (a b : string) :
  split sep (a ++ String sep b) = (split sep a ++ split sep b)%list.
Proof.
  induction a as [|c a IH]; simpl.
  - now rewrite Ascii.eqb_refl.
  - destruct (Ascii.eqb c sep); [now rewrite IH|].
    rewrite IH. destruct (split sep a) as [|h t] eqn:E; [now apply split_not_nil in E|].
    reflexivity.
Qed.

Lemma common_parts_loop_comm (ps us : list string) :
  common_parts_loop (combine ps us) = common_parts_loop (combine us ps).
Proof.
  revert us. induction ps as [|p ps IH]; intros [|u us]; simpl; try reflexivity.
  rewrite (String.eqb_sym u p).
  destruct (String.eqb_spec p u) as [->|N]; [now rewrite IH | reflexivity].
Qed.

Lemma common_parts_loop_same (ps : list string) :
  common_parts_loop (combine ps ps) = ps.
Proof.
  induction ps as [|p ps IH]; simpl; [reflexivity|].
  now rewrite String.eqb_refl, IH.
Qed.

Lemma common_parts_loop_app (g ps us : list string) :
  common_parts_loop (combine (g ++ ps) (g ++ us))
  = (g ++ common_parts_loop (combine ps us))%list.
Proof.
  induction g as [|x g IH]; simpl; [reflexivity|].
  now rewrite String.eqb_refl, IH.
Qed.

Lemma join_prefix_ancestor (cp rest : list string) :
  ancestor_path (join ":" cp) (join ":" (cp ++ rest)%list).
Proof.
  destruct cp as [|c cp].
  - exists (join ":" rest). simpl. auto.
  - destruct rest as [|r rest].
    + exists "". rewrite app_nil_r, append_empty_r. auto.
    + rewrite join_app by discriminate.
      eexists. split; [reflexivity|]. right; right. simpl. eauto.
Qed.

(** The owner of a connection is an ancestor path of both of its ends:
    the target and the source start with the owner, and what follows is
    empty or begins at a colon (the empty owner, the root, is an ancestor
    of every path). *)
Theorem owner_is_ancestor (par unk : string) :
  ancestor_path (owner par unk) par /\ ancestor_path (owner par unk) unk.
Proof.
  unfold owner, common_parts.
  destruct (common_parts_loop_prefix (split ":" par) (split ":" unk))
    as [[rp Ep] [ru Eu]].
  split.
  - rewrite <- (join_split ":" par) at 2. rewrite Ep at 2. apply join_prefix_ancestor.
  - rewrite <- (join_split ":" unk) at 2. rewrite Eu at 2. apply join_prefix_ancestor.
Qed.

(** The owner does not depend on the direction of the connection, and a
    path connected to itself is its own owner. *)
Theorem owner_symmetric (par unk : string) :
  owner par unk = owner unk par /\ owner par par = par.
Proof.
  unfold owner, common_parts. split.
  - now rewrite common_parts_loop_comm.
  - rewrite common_parts_loop_same. apply join_split.
Qed.

(** Two paths below one group whose first parts after the group differ
    are owned by that group: the owner of [g:a] and [g:b] is [g]. *)
Theorem owner_of_group_members (g a b : string) :
  hd "" (split ":" a) <> hd "" (split ":" b) ->
  owner (g ++ String ":" a) (g ++ String ":" b) = g.
Proof.
  intros N. unfold owner, common_parts.
  rewrite !split_app, common_parts_loop_app.
  destruct (split ":" a) as [|x xs] eqn:Ea; [now apply split_not_nil in Ea|].
  destruct (split ":" b) as [|y ys] eqn:Eb; [now apply split_not_nil in Eb|].
  simpl in *. rewrite (proj2 (String.eqb_neq x y) N), app_nil_r.
  apply join_split.
Qed.

Lemma owner_of_group_members_witness :
  owner ("G1:sub" ++ String ":" "C1:x") ("G1:sub" ++ String ":" "C2:x") = "G1:sub".
Proof. apply owner_of_group_members. simpl. discriminate. Defined.

(** ** The lists of targets of the owners *)

Lemma concat_values_setitem_append (d : dict string (list string))
  (o par : string) (targets : list string) :
  get d o = Some targets ->
  Permutation (concat (values (setitem d o (targets ++ [par])%list)))
              (concat (values d) ++ [par]).
Proof.
  unfold values. induction d as [|[k v] d IH]; simpl; [discriminate|].
  destruct (String.eqb k o); simpl.
  - intros [= ->]. rewrite <- !app_assoc. apply Permutation_app_head.
    apply Permutation_app_comm.
  - intros G. rewrite <- app_assoc. apply Permutation_app_head. now apply IH.
Qed.

Lemma concat_values_assign_step (d : dict string (list string))
  (conn : string * string) :
  Permutation (concat (values (assign_step d conn)))
              (concat (values d) ++ [fst conn]).
Proof.
  unfold assign_step, setdefault_append.
  destruct (get d (owner_of conn)) as [targets|] eqn:G.
  - now apply concat_values_setitem_append.
  - apply get_None in G. rewrite (setitem_fresh _ _ _ G).
    unfold values. rewrite map_app, concat_app. simpl. apply Permutation_refl.
Qed.

Lemma concat_values_fold (conns : list (string * string))
  (d : dict string (list string)) :
  Permutation (concat (values (fold_left assign_step conns d)))
              (concat (values d) ++ map fst conns).
Proof.
  revert d. induction conns as [|conn conns IH]; intros d; simpl.
  - now rewrite app_nil_r.
  - eapply Permutation_trans; [apply IH|].
    eapply Permutation_trans;
      [apply Permutation_app_tail, concat_values_assign_step|].
    now rewrite <- app_assoc.
Qed.

(** [assign_parameters] loses no target and repeats none: the lists of all
    owners, put together, are a permutation of the targets of the
    connections.  So there are as many listed targets as connections, and
    with connections whose targets are distinct no target is listed
    twice, under one owner or under two. *)
Theorem assign_parameters_partition (connections : dict string string) :
  Permutation (concat (values (assign_parameters connections))) (keys connections) /\
  length (concat (values (assign_parameters connections))) = length connections /\
  (well_formed connections -> NoDup (concat (values (assign_parameters connections)))).
Proof.
  assert (P : Permutation (concat (values (assign_parameters connections)))
                          (keys connections)).
  { rewrite assign_parameters_fold. unfold items.
    apply (concat_values_fold connections []). }
  split; [exact P | split].
  - rewrite (Permutation_length P). unfold keys. apply length_map.
  - intros W. apply (Permutation_NoDup (Permutation_sym P)). exact W.
Qed.

(** What [assign_parameters] returns is a dict without repeated keys.  Its
    keys are the owners of the connections, and the list of an owner is
    never empty: it is the targets of the connections that have this
    owner, in the iteration order of the connections. *)
Theorem assign_parameters_lists (connections : dict string string) (o : string) :
  well_formed (assign_parameters connections) /\
  (In o (keys (assign_parameters connections)) <->
   exists par unk, In (par, unk) connections /\ owner par unk = o) /\
  (forall targets, get (assign_parameters connections) o = Some targets <->
     targets = targets_of o connections /\ targets <> []).
Proof.
  split; [|split].
  - rewrite assign_parameters_fold. apply well_formed_fold. constructor.
  - rewrite keys_assign_parameters. split.
    + intros ([par unk] & I & E). eauto.
    + intros (par & unk & I & E). exists (par, unk). auto.
  - intros targets. split.
    + intros G.
      assert (E : targets = targets_of o connections).
      { rewrite <- owned_assign_parameters. unfold owned, get_default. now rewrite G. }
      split; [exact E|]. subst targets.
      apply get_In, (in_map fst) in G.
      apply keys_assign_parameters in G as ([par unk] & I & Eo).
      intros N.
      assert (T : In par (targets_of o connections))
        by (apply targets_of_In; eauto).
      rewrite N in T. destruct T.
    + intros [-> N].
      destruct (targets_of o connections) as [|par l] eqn:T; [congruence|].
      assert (I : In par (targets_of o connections)) by (rewrite T; now left).
      apply targets_of_In in I as (unk & I & Eo).
      destruct (get_present (assign_parameters connections) o) as [targets G].
      { apply keys_assign_parameters. exists (par, unk). auto. }
      rewrite G. f_equal.
      rewrite <- T, <- owned_assign_parameters. unfold owned, get_default.
      now rewrite G.
Qed.

(** ** Hanging parameters and new connections *)

Lemma contains_setitem {V : Type} (d : dict string V) (k k' : string) (v : V) :
  contains (setitem d k v) k' = contains d k' || String.eqb k' k.
Proof.
  unfold contains. destruct (String.eqb_spec k' k) as [->|N].
  - rewrite get_setitem_same. now rewrite orb_true_r.
  - rewrite get_setitem_other by congruence. now rewrite orb_false_r.
Qed.

(** Connecting a parameter takes it, and nothing else, off the list of
    hanging parameters; the others stay in their order. *)
Theorem hanging_params_connect {V : Type} (params_dict : dict string V)
  (connections : dict string string) (tgt src : string) :
  hanging_params params_dict (setitem connections tgt src)
  = filter (fun p => negb (String.eqb p tgt)) (hanging_params params_dict connections) /\
  (forall p, In p (hanging_params params_dict (setitem connections tgt src)) <->
     In p (hanging_params params_dict connections) /\ p <> tgt).
Proof.
  assert (E : hanging_params params_dict (setitem connections tgt src)
              = filter (fun p => negb (String.eqb p tgt))
                       (hanging_params params_dict connections)).
  { unfold hanging_params. induction (keys params_dict) as [|p ps IH]; simpl;
      [reflexivity|].
    rewrite contains_setitem, negb_orb.
    destruct (contains connections p); simpl; [exact IH|].
    destruct (String.eqb p tgt); simpl; [exact IH | now rewrite IH]. }
  split; [exact E|].
  intros p. rewrite E, filter_In, negb_true_iff, String.eqb_neq. tauto.
Qed.

(** ** Failure and success of [setup] *)


Lemma check_hanging_params_Ok {V : Type} (params_dict : dict string V)
  (connections : dict string string) :
  check_hanging_params params_dict connections = Ok tt ->
  forall p, In p (keys params_dict) -> In p (keys connections).
Proof.
  unfold check_hanging_params.
  destruct (hanging_params params_dict connections) as [|h l] eqn:H; [|discriminate].
  intros _ p I. destruct (contains connections p) eqn:C; [now apply contains_In|].
  assert (Ih : In p (hanging_params params_dict connections)).
  { apply hanging_params_In. split; [exact I | now apply contains_false]. }
  rewrite H in Ih. destruct Ih.
Qed.

Lemma setup_Ok (params_dict unknowns_dict : dict string Metadata)
  (explicit implicit merged : dict string string)
  (param_owners : dict string (list string)) :
  setup params_dict unknowns_dict explicit implicit = Ok (param_owners, merged) ->
  reconcile explicit implicit = Ok merged /\
  check_connections merged params_dict unknowns_dict = Ok tt /\
  check_hanging_params params_dict merged = Ok tt /\
  param_owners = assign_parameters merged.
Proof.
  unfold setup.
  destruct (reconcile explicit implicit) as [m|e]; simpl; [|discriminate].
  destruct (check_connections m params_dict unknowns_dict) as [[]|e] eqn:C;
    simpl; [|discriminate].
  destruct (check_hanging_params params_dict m) as [[]|e] eqn:H;
    simpl; [|discriminate].
  intros [= <- <-]. auto.
Qed.


Lemma check_connection_Ok_type (source target : VarMetadata) :
  check_connection source target = Ok tt -> type source = type target.
Proof.
  unfold check_connection, check_types_match.
  destruct (pytype_eqb_spec (type source) (type target)); simpl;
    [auto | discriminate].
Qed.

(** After a successful [setup] of well-formed tables and mappings the
    merged connections connect exactly the parameters: their targets are
    the parameters, each once; every source is an unknown of the same kind
    as its target; and the lists of the owners, put together, are a
    permutation of the parameters, so every parameter is listed under an
    owner and none twice. *)
Theorem setup_success (params_dict unknowns_dict : dict string Metadata)
  (explicit implicit merged : dict string string)
  (param_owners : dict string (list string)) :
  well_formed params_dict -> well_formed explicit -> well_formed implicit ->
  setup params_dict unknowns_dict explicit implicit = Ok (param_owners, merged) ->
  Permutation (keys merged) (keys params_dict) /\
  (forall tgt src, In (tgt, src) merged ->
     In tgt (keys params_dict) /\ In src (keys unknowns_dict) /\
     exists source target,
       make_var_metadata src (get unknowns_dict src) = Ok source /\
       make_var_metadata tgt (get params_dict tgt) = Ok target /\
       type source = type target) /\
  Permutation (concat (values param_owners)) (keys params_dict) /\
  (forall p, In p (keys params_dict) ->
     exists o targets, get param_owners o = Some targets /\ In p targets).
Proof.
  intros Wp We Wi S. apply setup_Ok in S as (R & C & H & ->).
  assert (Ends : forall tgt src, In (tgt, src) merged ->
            In tgt (keys params_dict) /\ In src (keys unknowns_dict) /\
            exists source target,
              make_var_metadata src (get unknowns_dict src) = Ok source /\
              make_var_metadata tgt (get params_dict tgt) = Ok target /\
              type source = type target).
  { intros tgt src I.
    destruct (proj1 (check_connections_loop_Ok _ _ _) C tgt src I)
      as (source & target & Ms & Mt & Cc).
    pose proof (make_var_metadata_Ok _ _ _ Ms) as (ms & vs & Gs & _).
    pose proof (make_var_metadata_Ok _ _ _ Mt) as (mt & vt & Gt & _).
    split; [apply get_In, (in_map fst) in Gt; exact Gt|].
    split; [apply get_In, (in_map fst) in Gs; exact Gs|].
    exists source, target. split; [exact Ms | split; [exact Mt|]].
    now apply check_connection_Ok_type. }
  assert (Wm : well_formed merged).
  { apply reconcile_Ok in R as [D ->]. rewrite (update_disjoint _ _ Wi D).
    now apply well_formed_app. }
  assert (Pk : Permutation (keys merged) (keys params_dict)).
  { apply NoDup_Permutation; [exact Wm | exact Wp|]. intros p. split.
    - intros I. unfold keys in I. apply in_map_iff in I as ([t s] & <- & I).
      apply (Ends t s I).
    - now apply check_hanging_params_Ok. }
  assert (Po : Permutation (concat (values (assign_parameters merged))) (keys merged)).
  { rewrite assign_parameters_fold. unfold items.
    apply (concat_values_fold merged []). }
  split; [exact Pk | split; [exact Ends | split]].
  - now apply Permutation_trans with (keys merged).
  - intros p I. apply (Permutation_in _ (Permutation_sym Pk)) in I.
    unfold keys in I. apply in_map_iff in I as ([t s] & <- & I). simpl.
    assert (T : In t (owned (assign_parameters merged) (owner t s))).
    { rewrite owned_assign_parameters. apply targets_of_In. eauto. }
    unfold owned, get_default in T.
    destruct (get (assign_parameters merged) (owner t s)) as [targets|] eqn:G;
      [eauto | destruct T].
Qed.

Lemma setup_success_witness :
  Permutation (concat (values [("G", ["G:C1:a"])])) (keys [("G:C1:a", tt)]).
Proof.
  apply (setup_success
           [("G:C1:a", {| md_val := Some (PyFloat 0); md_shape := Some (PyTuple [3%Z]) |})]
           [("G:C2:b", {| md_val := Some (PyFloat 0); md_shape := Some (PyTuple [3%Z]) |})]
           [("G:C1:a", "G:C2:b")] [] [("G:C1:a", "G:C2:b")] [("G", ["G:C1:a"])]);
    try reflexivity;
    unfold well_formed; simpl; repeat constructor; simpl; intuition discriminate.
Defined.

(** ** The two readings of [check_connections] *)



